(** * Agent-Based-Economy-Sim: the simulation engine of [simulation.py]

    A shallow embedding of the classes [Household], [Firm] and [Simulation]
    and the properties of the purchase, payday, setup and tick operations.

    Modelling conventions.
    - Money.  The program keeps balances, prices and wage rates in Python
      floats, which are binary64 numbers.  Two embeddings are used.
      The engine as a whole is embedded over exact arithmetic: a float is
      a rational number [Q], compared with [==] ([Qeq]), [float(x)] is the
      identity and no operation rounds or overflows.  That embedding
      carries the properties that are stated in exact arithmetic and those
      that do not hang on rounding: the shape of the world, the order of
      the phases, the records, the sign of the firm balances.
      The purchase [Household.place_order_and_pay], whose integer result
      and whose sign of the balance do hang on rounding, is embedded a
      second time over binary64 itself (module [Binary64]), on the
      primitive floats, which compute as IEEE 754 double precision does.
    - Integers.  Python [int] is [Z].  Agent ids come out of [range] and are
      natural numbers.
    - Dictionaries.  A Python [dict] keeps its keys in insertion order and
      the tick iterates over it, so a dictionary is an association list
      (module [Dict]): [d[k] = v] replaces the entry of [k] where it stands
      or appends a new one.
    - Objects.  Agents are mutable objects that live in the two dictionaries
      of the simulation.  An object is addressed by its dictionary key: a
      mutation through a reference reads the entry and writes it back.
    - Exceptions are [None].  In the exact embedding these are
      [ZeroDivisionError], [KeyError] and [IndexError]; in [Binary64] also
      the [OverflowError] and [ValueError] of the conversions between
      [int] and [float].
    - Randomness.  The global generator of module [random] is an explicit
      state [Rng]: an arbitrary stream that holds, for each call of
      [random.choice] in turn, a number that decides the outcome of that
      call, and the count of the calls made so far.  A call on a list of
      length [n] returns the element of index [k mod n] for its number [k].
      The stream being arbitrary, every outcome of every call is covered;
      nothing is said of the distribution, nor of the numbers the
      generator of Python consumes inside one call. *)

From Stdlib Require Import List ZArith QArith Qround Lia Lqa Bool Arith.
From Stdlib Require Floats.
Import ListNotations.



(** ** The error monad of exceptions *)

Definition bind {A B : Type} (m : option A) (k : A -> option B) : option B :=
  match m with
  | Some a => k a
  | None => None
  end.

Notation "x <- m ;; k" := (bind m (fun x => k))
  (at level 61, m at next level, right associativity).
Notation "' pat <- m ;; k" := (bind m (fun x => match x with pat => k end))
  (at level 61, pat pattern, m at next level, right associativity).

(** ** Python primitives *)

(** [x / y] on floats: raises [ZeroDivisionError] when [y] is zero. *)
Definition py_div (x y : Q) : option Q :=
  if Qeq_bool y 0 then None else Some (x / y)%Q.

(** [int(x)] on a float: truncation toward zero. *)
Definition py_int (x : Q) : Z := Z.quot (Qnum x) (Z.pos (Qden x)).

(** [range(n)]: empty when [n <= 0]. *)
Definition py_range (n : Z) : list nat := seq 0 (Z.to_nat n).

(** ** Insertion-ordered dictionaries *)

Module Dict.

Definition dict (V : Type) : Type := list (nat * V).

Definition empty {V : Type} : dict V := [].

Fixpoint get {V : Type} (k : nat) (d : dict V) : option V :=
  match d with
  | [] => None
  | (k', v) :: rest => if Nat.eqb k k' then Some v else get k rest
  end.

Fixpoint set {V : Type} (k : nat) (v : V) (d : dict V) : dict V :=
  match d with
  | [] => [(k, v)]
  | (k', v') :: rest =>
      if Nat.eqb k k' then (k, v) :: rest else (k', v') :: set k v rest
  end.

Definition keys {V : Type} (d : dict V) : list nat := map fst d.

Definition values {V : Type} (d : dict V) : list V := map snd d.

(** The keys of a Python dictionary are pairwise distinct. *)
Definition wf {V : Type} (d : dict V) : Prop := NoDup (keys d).

End Dict.

Import Dict.

(** ** The random generator *)

(** [stream g k] decides the outcome of the [k]-th call of [random.choice];
    [pos g] counts the calls made so far. *)
Record Rng : Type := mkRng { stream : nat -> nat; pos : nat }.

Definition next (g : Rng) : Rng := mkRng (stream g) (S (pos g)).

(** The number that decides the [i]-th coming call. *)
Definition draw (g : Rng) (i : nat) : nat := stream g (pos g + i).

(** [random.choice(l)]: [IndexError] on an empty list, and otherwise one of
    the elements of [l], which one being up to the stream. *)
Definition random_choice {A : Type} (l : list A) (g : Rng) : option (A * Rng) :=
  match l with
  | [] => None
  | _ :: _ => x <- nth_error l (draw g 0 mod length l) ;; Some (x, next g)
  end.

(** ** class Household *)

Module Household.

Record t : Type := mk {
  id : nat;
  balance : Q;
  size : Z;
  employer_id : option nat
}.

(** [__init__(id, balance, size)] *)
Definition init (id : nat) (balance : Q) (size : Z) : t :=
  mk id balance size None.

Definition set_balance (self : t) (b : Q) : t :=
  mk (id self) b (size self) (employer_id self).

Definition set_employer_id (self : t) (e : nat) : t :=
  mk (id self) (balance self) (size self) (Some e).

Definition determine_food_demand (self : t) (food_per_person : Z) : Z :=
  (size self * food_per_person)%Z.

(** Returns the purchased quantity and the household after the debit. *)
Definition place_order_and_pay (self : t) (price : Q) : option (Z * t) :=
  let food_demand := determine_food_demand self 1 in
  let cost := (inject_Z food_demand * price)%Q in
  if Qle_bool cost (balance self) then
    let purchased_quantity := food_demand in
    Some (purchased_quantity, set_balance self (balance self - cost)%Q)
  else
    ratio <- py_div (balance self) price ;;
    let purchased_quantity := py_int ratio in
    Some (purchased_quantity,
          set_balance self
            (balance self - inject_Z purchased_quantity * price)%Q).

End Household.

(** ** class Firm *)

Module Firm.

Record t : Type := mk {
  id : nat;
  balance : Q;
  price : Q;
  wage_rate : Q;
  worker_ids : list nat;
  revenue_this_tick : Q
}.

(** [__init__(id, price, wage_rate)] *)
Definition init (id : nat) (price wage_rate : Q) : t :=
  mk id 0 price wage_rate [] 0.

Definition add_worker (self : t) (household_id : nat) : t :=
  mk (id self) (balance self) (price self) (wage_rate self)
     (worker_ids self ++ [household_id]) (revenue_this_tick self).

Definition receive_payment (self : t) (amount : Q) : t :=
  mk (id self) (balance self) (price self) (wage_rate self)
     (worker_ids self) (revenue_this_tick self + amount)%Q.

(** The first two statements of [pay_workers]:
    [balance += revenue_this_tick; revenue_this_tick = 0]. *)
Definition fold_revenue (self : t) : t :=
  mk (id self) (balance self + revenue_this_tick self)%Q (price self)
     (wage_rate self) (worker_ids self) 0.

Definition set_balance (self : t) (b : Q) : t :=
  mk (id self) b (price self) (wage_rate self) (worker_ids self)
     (revenue_this_tick self).

(** [households_dict[worker_id].balance += wage_per_worker] *)
Definition credit (worker_id : nat) (wage_per_worker : Q)
    (households_dict : dict Household.t) : option (dict Household.t) :=
  hh <- get worker_id households_dict ;;
  Some (set worker_id
          (Household.set_balance hh (Household.balance hh + wage_per_worker)%Q)
          households_dict).

(** The loop [for worker_id in self.worker_ids]. *)
Fixpoint distribute_wages (ids : list nat) (wage_per_worker : Q)
    (households_dict : dict Household.t) : option (dict Household.t) :=
  match ids with
  | [] => Some households_dict
  | worker_id :: rest =>
      d <- credit worker_id wage_per_worker households_dict ;;
      distribute_wages rest wage_per_worker d
  end.

Definition pay_workers (self : t) (households_dict : dict Household.t)
    : option (t * dict Household.t) :=
  let self := fold_revenue self in
  match worker_ids self with
  | [] => Some (self, households_dict)
  | _ :: _ =>
      let total_payout := (balance self * wage_rate self)%Q in
      wage_per_worker <-
        py_div total_payout (inject_Z (Z.of_nat (length (worker_ids self)))) ;;
      d <- distribute_wages (worker_ids self) wage_per_worker households_dict ;;
      Some (set_balance self (balance self - total_payout)%Q, d)
  end.

End Firm.

(** ** class Simulation *)

Record Config : Type := mkConfig {
  N_F : Z;
  N_H : Z;
  p : Q;
  wage_rate : Q;
  M0 : Q;
  household_size : Z
}.

Record Transaction : Type := mkTransaction {
  from_id : nat;
  to_id : nat;
  amount : Q
}.

Record Simulation : Type := mkSimulation {
  config : Config;
  households : dict Household.t;
  firms : dict Firm.t
}.

(** The first loop of [_setup_world]. *)
Fixpoint create_firms (ids : list nat) (cfg : Config) (fs : dict Firm.t)
    : dict Firm.t :=
  match ids with
  | [] => fs
  | i :: rest =>
      create_firms rest cfg (set i (Firm.init i (p cfg) (wage_rate cfg)) fs)
  end.

(** One round of the second loop of [_setup_world]. *)
Definition create_household (i : nat) (cfg : Config) (initial_balance : Q)
    (firm_ids : list nat) (st : dict Household.t * dict Firm.t * Rng)
    : option (dict Household.t * dict Firm.t * Rng) :=
  let '(hs, fs, g) := st in
  let hs := set i (Household.init i initial_balance (household_size cfg)) hs in
  '(employer_firm_id, g) <- random_choice firm_ids g ;;
  hh <- get i hs ;;
  let hs := set i (Household.set_employer_id hh employer_firm_id) hs in
  f <- get employer_firm_id fs ;;
  let fs := set employer_firm_id (Firm.add_worker f i) fs in
  Some (hs, fs, g).

Fixpoint create_households (ids : list nat) (cfg : Config) (initial_balance : Q)
    (firm_ids : list nat) (st : dict Household.t * dict Firm.t * Rng)
    : option (dict Household.t * dict Firm.t * Rng) :=
  match ids with
  | [] => Some st
  | i :: rest =>
      st <- create_household i cfg initial_balance firm_ids st ;;
      create_households rest cfg initial_balance firm_ids st
  end.

(** [Simulation(config)]: [__init__] with [_setup_world]. *)
Definition _setup_world (cfg : Config) (g : Rng) : option (Simulation * Rng) :=
  let fs := create_firms (py_range (N_F cfg)) cfg empty in
  let firm_ids := keys fs in
  initial_balance <- py_div (M0 cfg) (inject_Z (N_H cfg)) ;;
  '(hs, fs, g) <-
    create_households (py_range (N_H cfg)) cfg initial_balance firm_ids
      (empty, fs, g) ;;
  Some (mkSimulation cfg hs fs, g).

(** The state the two loops of [run_one_tick] work on. *)
Record TickState : Type := mkTickState {
  ts_households : dict Household.t;
  ts_firms : dict Firm.t;
  ts_transactions : list Transaction;
  ts_rng : Rng
}.

(** One round of the shopping loop, for the household stored under
    [hh_key]; [firm_list] lists the firm objects by their keys. *)
Definition shop (firm_list : list nat) (hh_key : nat) (st : TickState)
    : option TickState :=
  hh <- get hh_key (ts_households st) ;;
  '(firm_key, g) <- random_choice firm_list (ts_rng st) ;;
  chosen_firm <- get firm_key (ts_firms st) ;;
  '(purchased_qty, hh') <-
    Household.place_order_and_pay hh (Firm.price chosen_firm) ;;
  let hs := set hh_key hh' (ts_households st) in
  if (0 <? purchased_qty)%Z then
    let amount := (inject_Z purchased_qty * Firm.price chosen_firm)%Q in
    let fs :=
      set firm_key (Firm.receive_payment chosen_firm amount) (ts_firms st) in
    Some (mkTickState hs fs
            (ts_transactions st ++
               [mkTransaction (Household.id hh') (Firm.id chosen_firm) amount])
            g)
  else
    Some (mkTickState hs (ts_firms st) (ts_transactions st) g).

(** [for k in keys: body], stopped by the first exception. *)
Fixpoint for_each {S : Type} (body : nat -> S -> option S) (ks : list nat)
    (st : S) : option S :=
  match ks with
  | [] => Some st
  | k :: rest => st <- body k st ;; for_each body rest st
  end.

(** [for hh in self.households.values()] *)
Definition shopping_phase (firm_list : list nat) (hh_keys : list nat)
    (st : TickState) : option TickState :=
  for_each (shop firm_list) hh_keys st.

(** One round of the payday loop, for the firm stored under [firm_key]. *)
Definition payday (firm_key : nat) (st : TickState) : option TickState :=
  f <- get firm_key (ts_firms st) ;;
  '(f', hs) <- Firm.pay_workers f (ts_households st) ;;
  Some (mkTickState hs (set firm_key f' (ts_firms st))
          (ts_transactions st) (ts_rng st)).

(** [for f in self.firms.values()] *)
Definition payday_phase (firm_keys : list nat) (st : TickState)
    : option TickState :=
  for_each payday firm_keys st.

Definition run_one_tick (self : Simulation) (g : Rng)
    : option (list Transaction * Simulation * Rng) :=
  let firm_list := keys (firms self) in
  let transactions_this_tick := [] in
  st <- shopping_phase firm_list (keys (households self))
          (mkTickState (households self) (firms self)
             transactions_this_tick g) ;;
  st <- payday_phase (keys (ts_firms st)) st ;;
  Some (ts_transactions st,
        mkSimulation (config self) (ts_households st) (ts_firms st),
        ts_rng st).


(** ** The purchase in binary64 *)

Module Binary64.

Import Stdlib.Floats.Floats.

(** An [int] operand of a float operation is converted to the nearest
    float, ties to even; [OverflowError] when it is out of range. *)
Definition of_int (z : Z) : option float :=
  let f := SF2Prim (binary_normalize prec emax z 0 false) in
  if is_infinity f then None else Some f.

(** [int(x)] on a float: truncation toward zero; [ValueError] on a NaN and
    [OverflowError] on an infinity. *)
Definition py_int (x : float) : option Z :=
  match Prim2SF x with
  | S754_zero _ => Some 0%Z
  | S754_finite s m e =>
      let v := if (0 <=? e)%Z then (Z.pos m * 2 ^ e)%Z
               else Z.quot (Z.pos m) (2 ^ (- e)) in
      Some (if s then (- v)%Z else v)
  | S754_infinity _ => None
  | S754_nan => None
  end.

(** [x / y] on floats: [ZeroDivisionError] when [y] is [0.0] or [-0.0]. *)
Definition py_div (x y : float) : option float :=
  if (y =? 0)%float then None else Some (x / y)%float.

(** The rational number a finite float stands for. *)
Definition exact (x : float) : option Q :=
  match Prim2SF x with
  | S754_zero _ => Some 0%Q
  | S754_finite s m e =>
      let v := if (0 <=? e)%Z then inject_Z (Z.pos m * 2 ^ e)
               else Z.pos m # Z.to_pos (2 ^ (- e)) in
      Some (if s then - v else v)%Q
  | S754_infinity _ => None
  | S754_nan => None
  end.

Module Household.

Record t : Type := mk {
  id : nat;
  balance : float;
  size : Z;
  employer_id : option nat
}.

(** [__init__(id, balance, size)] *)
Definition init (id : nat) (balance : float) (size : Z) : t :=
  mk id balance size None.

Definition set_balance (self : t) (b : float) : t :=
  mk (id self) b (size self) (employer_id self).

Definition determine_food_demand (self : t) (food_per_person : Z) : Z :=
  (size self * food_per_person)%Z.

(** Returns the purchased quantity and the household after the debit. *)
Definition place_order_and_pay (self : t) (price : float) : option (Z * t) :=
  let food_demand := determine_food_demand self 1 in
  demand <- of_int food_demand ;;
  let cost := (demand * price)%float in
  if (cost <=? balance self)%float then
    let purchased_quantity := food_demand in
    Some (purchased_quantity, set_balance self (balance self - cost)%float)
  else
    ratio <- py_div (balance self) price ;;
    purchased_quantity <- py_int ratio ;;
    quantity <- of_int purchased_quantity ;;
    Some (purchased_quantity,
          set_balance self (balance self - quantity * price)%float).

End Household.

(** [initial_balance = self.config['M0'] / self.config['N_H']] of
    [_setup_world], for a float [M0] and an int [N_H]. *)
Definition initial_balance (M0 : float) (N_H : Z) : option float :=
  n <- of_int N_H ;; py_div M0 n.

(** The floats that the literals [1.89] and [0.63] of Python denote. *)
Definition f_1_89 : float := 0x1.e3d70a3d70a3dp+0.
Definition f_0_63 : float := 0x1.428f5c28f5c29p-1.

End Binary64.

(** * Properties *)

Local Open Scope Q_scope.

(** ** Dictionaries *)

Section DictFacts.

Context {V : Type}.
Implicit Types (d : dict V) (k : nat) (v : V).

Lemma get_set_eq d k v : get k (set k v d) = Some v.
Proof.
  induction d as [|[k' v'] d IH]; simpl.
  - now rewrite Nat.eqb_refl.
  - destruct (Nat.eqb k k') eqn:E; simpl.
    + now rewrite Nat.eqb_refl.
    + now rewrite E.
Qed.

Lemma get_set_neq d k k' v : k <> k' -> get k' (set k v d) = get k' d.
Proof.
  intros Hne. induction d as [|[k0 v0] d IH]; simpl.
  - destruct (Nat.eqb k' k) eqn:E; [|reflexivity].
    apply Nat.eqb_eq in E. congruence.
  - destruct (Nat.eqb k k0) eqn:E; simpl.
    + apply Nat.eqb_eq in E. subst k0.
      destruct (Nat.eqb k' k) eqn:E'; [|reflexivity].
      apply Nat.eqb_eq in E'. congruence.
    + now rewrite IH.
Qed.

Lemma get_Some_in_keys d k v : get k d = Some v -> In k (keys d).
Proof.
  induction d as [|[k' v'] d IH]; simpl; [discriminate|].
  destruct (Nat.eqb k k') eqn:E.
  - apply Nat.eqb_eq in E. now left.
  - intros H. right. now apply IH.
Qed.

Lemma in_keys_get d k : In k (keys d) -> exists v, get k d = Some v.
Proof.
  induction d as [|[k' v'] d IH]; simpl; [tauto|].
  intros [->|H].
  - rewrite Nat.eqb_refl. now exists v'.
  - destruct (Nat.eqb k k'); [now exists v'|now apply IH].
Qed.

Lemma get_Some_in d k v : get k d = Some v -> In (k, v) d.
Proof.
  induction d as [|[k' v'] d IH]; simpl; [discriminate|].
  destruct (Nat.eqb k k') eqn:E.
  - apply Nat.eqb_eq in E. intros [= ->]. subst. now left.
  - intros H. right. now apply IH.
Qed.

Lemma in_get d k v : wf d -> In (k, v) d -> get k d = Some v.
Proof.
  unfold wf. induction d as [|[k' v'] d IH]; simpl; [tauto|].
  intros Hnd [[= -> ->]|Hin].
  - now rewrite Nat.eqb_refl.
  - inversion Hnd as [|? ? Hni Hnd']; subst.
    destruct (Nat.eqb k k') eqn:E.
    + apply Nat.eqb_eq in E. subst k'. exfalso. apply Hni.
      change k with (fst (k, v)). now apply in_map.
    + now apply IH.
Qed.

(** Writing an existing key leaves the order of the keys alone. *)
Lemma keys_set_in d k v : In k (keys d) -> keys (set k v d) = keys d.
Proof.
  induction d as [|[k' v'] d IH]; simpl; [tauto|].
  intros H. destruct (Nat.eqb k k') eqn:E; simpl.
  - apply Nat.eqb_eq in E. now subst.
  - f_equal. apply IH. destruct H as [->|H]; [|assumption].
    now rewrite Nat.eqb_refl in E.
Qed.

(** Writing a new key appends it. *)
Lemma set_notin d k v : ~ In k (keys d) -> set k v d = d ++ [(k, v)].
Proof.
  induction d as [|[k' v'] d IH]; simpl; [reflexivity|].
  intros H. destruct (Nat.eqb k k') eqn:E.
  - apply Nat.eqb_eq in E. subst. tauto.
  - f_equal. apply IH. tauto.
Qed.

Lemma keys_set_notin d k v : ~ In k (keys d) -> keys (set k v d) = keys d ++ [k].
Proof.
  intros H. rewrite set_notin by assumption. unfold keys. now rewrite map_app.
Qed.

Lemma Forall_set (P : nat * V -> Prop) d k v :
  Forall P d -> P (k, v) -> Forall P (set k v d).
Proof.
  intros Hd Hv. induction Hd as [|[k' v'] d Hx Hd IH]; simpl.
  - now constructor.
  - destruct (Nat.eqb k k'); constructor; assumption.
Qed.

Lemma Forall_get (P : nat * V -> Prop) d k v :
  Forall P d -> get k d = Some v -> P (k, v).
Proof.
  intros Hd Hg. apply get_Some_in in Hg.
  rewrite Forall_forall in Hd. now apply Hd.
Qed.

End DictFacts.

(** ** Python primitives *)

Lemma py_div_Some (x y : Q) : ~ y == 0 -> py_div x y = Some (x / y).
Proof.
  intros H. unfold py_div. destruct (Qeq_bool y 0) eqn:E; [|reflexivity].
  apply Qeq_bool_eq in E. contradiction.
Qed.

Lemma py_div_inv (x y r : Q) : py_div x y = Some r -> ~ y == 0 /\ r = x / y.
Proof.
  unfold py_div. destruct (Qeq_bool y 0) eqn:E; [discriminate|].
  intros [= <-]. split; [|reflexivity].
  intros H. apply Qeq_eq_bool in H. congruence.
Qed.

(** On a non-negative number, truncation is the floor. *)
Lemma py_int_floor (x : Q) : 0 <= x -> py_int x = Qfloor x.
Proof.
  intros H. unfold py_int. destruct x as [n d]. simpl.
  apply Z.quot_div_nonneg; [|reflexivity].
  unfold Qle in H. simpl in H. lia.
Qed.

Lemma Qfloor_nonneg (x : Q) : 0 <= x -> (0 <= Qfloor x)%Z.
Proof.
  intros H. change 0%Z with (Qfloor 0). now apply Qfloor_resp_le.
Qed.

(** [Qfloor (b / p)] is the largest integer [z] with [z * p <= b]. *)
Lemma Qfloor_div_le (b p : Q) : 0 < p -> inject_Z (Qfloor (b / p)) * p <= b.
Proof.
  intros Hp. pose proof (Qfloor_le (b / p)) as H.
  apply (Qmult_le_r _ _ p Hp) in H.
  assert (E : b / p * p == b) by (field; lra).
  now rewrite E in H.
Qed.



(** ** Household: the purchase *)

Section Purchase.

Import Household.

Variable hh : Household.t.
Variable P : Q.

Let B := balance hh.
Let s := size hh.

(** Both branches debit the returned quantity times the price. *)
Lemma place_order_and_pay_inv (q : Z) (hh' : Household.t) :
  place_order_and_pay hh P = Some (q, hh') ->
  hh' = set_balance hh (B - inject_Z q * P) /\
  ((inject_Z s * P <= B /\ q = s) \/
   (B < inject_Z s * P /\ ~ P == 0 /\ q = py_int (B / P))).
Proof.
  unfold place_order_and_pay, determine_food_demand. fold B s.
  rewrite Z.mul_1_r.
  destruct (Qle_bool (inject_Z s * P) B) eqn:E.
  - apply Qle_bool_iff in E. intros [= <- <-]. split; [reflexivity|now left].
  - assert (Hlt : B < inject_Z s * P).
    { apply Qnot_le_lt. intros H. apply Qle_bool_iff in H. congruence. }
    destruct (py_div B P) as [r|] eqn:D; simpl; [|discriminate].
    apply py_div_inv in D. destruct D as [HP ->].
    intros [= <- <-]. split; [reflexivity|right; tauto].
Qed.

Lemma place_order_and_pay_affordable :
  inject_Z s * P <= B ->
  place_order_and_pay hh P = Some (s, set_balance hh (B - inject_Z s * P)).
Proof.
  intros H. unfold place_order_and_pay, determine_food_demand. fold B s.
  rewrite Z.mul_1_r. apply Qle_bool_iff in H. now rewrite H.
Qed.

Lemma place_order_and_pay_clamped :
  0 <= B -> 0 < P -> ~ inject_Z s * P <= B ->
  place_order_and_pay hh P =
    Some (Qfloor (B / P),
          set_balance hh (B - inject_Z (Qfloor (B / P)) * P)).
Proof.
  intros HB HP H. unfold place_order_and_pay, determine_food_demand.
  fold B s. rewrite Z.mul_1_r.
  destruct (Qle_bool (inject_Z s * P) B) eqn:E.
  - apply Qle_bool_iff in E. contradiction.
  - rewrite py_div_Some by lra. simpl.
    rewrite py_int_floor; [reflexivity|].
    apply Qle_shift_div_l; lra.
Qed.

(** The purchase raises no exception at a positive price. *)
Lemma place_order_and_pay_total :
  0 < P -> exists q hh', place_order_and_pay hh P = Some (q, hh').
Proof.
  intros HP. unfold place_order_and_pay.
  destruct (Qle_bool _ _); [eauto|].
  rewrite py_div_Some by lra. simpl. eauto.
Qed.


Lemma place_order_and_pay_balance_nonneg (q : Z) (hh' : Household.t) :
  0 <= B -> 0 < P -> place_order_and_pay hh P = Some (q, hh') ->
  0 <= balance hh'.
Proof.
  intros HB HP H. apply place_order_and_pay_inv in H.
  destruct H as [-> [[Hle ->]|[Hlt [_ ->]]]]; simpl; fold B.
  - lra.
  - rewrite py_int_floor by (apply Qle_shift_div_l; lra).
    pose proof (Qfloor_div_le B P HP). lra.
Qed.

Lemma place_order_and_pay_qty_nonneg (q : Z) (hh' : Household.t) :
  0 <= B -> (0 <= s)%Z -> 0 < P ->
  place_order_and_pay hh P = Some (q, hh') -> (0 <= q)%Z.
Proof.
  intros HB Hs HP H. apply place_order_and_pay_inv in H.
  destruct H as [_ [[Hle ->]|[Hlt [_ ->]]]]; [assumption|].
  rewrite py_int_floor by (apply Qle_shift_div_l; lra).
  apply Qfloor_nonneg. apply Qle_shift_div_l; lra.
Qed.

End Purchase.


(** ** Household: the purchase in binary64 *)

Section Binary64Facts.

Import Stdlib.Floats.Floats.

(** Rounding keeps the sign it is given. *)
Lemma binary_round_aux_sign (sx : bool) (mx ex : Z) (lx : location) :
  match binary_round_aux prec emax sx mx ex lx with
  | S754_zero s | S754_infinity s | S754_finite s _ _ => s = sx
  | S754_nan => True
  end.
Proof.
  unfold binary_round_aux.
  destruct (shr_fexp prec emax mx ex lx) as [mrs' e'].
  destruct (shr_fexp prec emax _ e' loc_Exact) as [mrs'' e''].
  destruct (shr_m mrs''); [reflexivity| |exact I].
  destruct (Z.leb _ _); reflexivity.
Qed.

(** The floats that are not negative: the two zeros, the positive finite
    floats and [+inf]. *)
Definition nonneg (x : spec_float) : Prop :=
  match x with
  | S754_zero _ => True
  | S754_finite s _ _ => s = false
  | S754_infinity s => s = false
  | S754_nan => False
  end.

Lemma leb_zero_nonneg (x : float) :
  (0 <=? x)%float = true -> nonneg (Prim2SF x).
Proof.
  rewrite leb_spec. change (Prim2SF 0) with (S754_zero false).
  unfold SFleb, SFcompare.
  destruct (Prim2SF x) as [s|s| |s m e]; cbn [nonneg]; try discriminate; auto.
  - destruct s; [discriminate|reflexivity].
  - destruct s; [discriminate|reflexivity].
Qed.

Lemma ltb_zero_positive (x : float) :
  (0 <? x)%float = true ->
  (exists m e, Prim2SF x = S754_finite false m e) \/
  Prim2SF x = S754_infinity false.
Proof.
  rewrite ltb_spec. change (Prim2SF 0) with (S754_zero false).
  unfold SFltb, SFcompare.
  destruct (Prim2SF x) as [s|s| |s m e]; try discriminate.
  - destruct s; [discriminate|auto].
  - destruct s; [discriminate|eauto].
Qed.

(** [int] of a float that is not negative is not negative. *)
Lemma py_int_nonneg (x : float) (q : Z) :
  match Prim2SF x with
  | S754_nan => True
  | y => nonneg y
  end ->
  Binary64.py_int x = Some q -> (0 <= q)%Z.
Proof.
  unfold Binary64.py_int.
  destruct (Prim2SF x) as [s|s| |s m e]; cbn [nonneg]; try discriminate.
  - intros _ [= <-]. lia.
  - intros -> [= <-]. destruct (0 <=? e)%Z eqn:E.
    + change (0 <= Z.pos m * 2 ^ e)%Z.
      apply Z.mul_nonneg_nonneg; [lia|]. apply Z.pow_nonneg. lia.
    + change (0 <= Z.quot (Z.pos m) (2 ^ (- e)))%Z.
      apply Z.leb_gt in E. apply Z.quot_pos; [lia|].
      apply Z.pow_pos_nonneg; lia.
Qed.

(** The quotient of a float that is not negative by a positive one is not
    negative, or is a NaN ([inf / inf]). *)
Lemma div_nonneg (x y : float) :
  (0 <=? x)%float = true -> (0 <? y)%float = true ->
  match Prim2SF (x / y) with
  | S754_nan => True
  | z => nonneg z
  end.
Proof.
  intros Hx Hy. apply leb_zero_nonneg in Hx. apply ltb_zero_positive in Hy.
  rewrite div_spec. unfold SF64div, SFdiv.
  destruct Hy as [(my & ey & ->)| ->];
    destruct (Prim2SF x) as [sx|sx| |sx mx ex]; simpl in Hx; try exact I;
    try contradiction; subst; simpl; auto.
  destruct (SFdiv_core_binary prec emax (Z.pos mx) ex (Z.pos my) ey)
    as [[mz ez] lz].
  pose proof (binary_round_aux_sign false mz ez lz) as H.
  destruct (binary_round_aux prec emax false mz ez lz); simpl; auto.
Qed.

(** Buying nothing costs nothing: [B - 0 * P] is [B]. *)
Lemma sub_zero_mul (B P : float) :
  (0 <=? B)%float = true -> (0 <? P)%float = true -> is_infinity P = false ->
  (B - 0 * P)%float = B.
Proof.
  intros HB HP Hfin. apply leb_zero_nonneg in HB.
  apply Prim2SF_inj. rewrite sub_spec, mul_spec.
  change (Prim2SF 0) with (S754_zero false).
  destruct (ltb_zero_positive P HP) as [(m & e & E)|E].
  - rewrite E. unfold SF64mul, SF64sub, SFmul, SFsub. cbn [xorb].
    destruct (Prim2SF B) as [s|s| |s mb eb]; cbn [nonneg] in HB;
      try contradiction; try reflexivity.
    destruct s; reflexivity.
  - exfalso. unfold Prim2SF in E. rewrite Hfin in E.
    destruct (is_nan P); [discriminate|].
    destruct (is_zero P); [discriminate|].
    destruct (Z.frexp P) as [r ex].
    destruct (shr_fexp _ _ _ _ _) as [shr e'].
    destruct (shr_m shr); discriminate.
Qed.

Lemma of_int_0 : Binary64.of_int 0 = Some 0%float.
Proof. reflexivity. Qed.

Lemma place_order_and_pay_affordable64 (hh : Binary64.Household.t)
    (P demand : float) :
  Binary64.of_int (Binary64.Household.size hh) = Some demand ->
  (demand * P <=? Binary64.Household.balance hh)%float = true ->
  Binary64.Household.place_order_and_pay hh P =
    Some (Binary64.Household.size hh,
          Binary64.Household.set_balance hh
            (Binary64.Household.balance hh - demand * P)%float).
Proof.
  intros Hd Hc. unfold Binary64.Household.place_order_and_pay,
    Binary64.Household.determine_food_demand.
  rewrite Z.mul_1_r, Hd. cbn [bind]. now rewrite Hc.
Qed.

Lemma place_order_and_pay_clamped64 (hh : Binary64.Household.t)
    (P demand : float) (q : Z) (hh' : Binary64.Household.t) :
  Binary64.of_int (Binary64.Household.size hh) = Some demand ->
  (demand * P <=? Binary64.Household.balance hh)%float = false ->
  Binary64.Household.place_order_and_pay hh P = Some (q, hh') ->
  (P =? 0)%float = false /\
  Binary64.py_int (Binary64.Household.balance hh / P) = Some q /\
  exists quantity,
    Binary64.of_int q = Some quantity /\
    hh' = Binary64.Household.set_balance hh
            (Binary64.Household.balance hh - quantity * P)%float.
Proof.
  intros Hd Hc. unfold Binary64.Household.place_order_and_pay,
    Binary64.Household.determine_food_demand.
  rewrite Z.mul_1_r, Hd. cbn [bind]. rewrite Hc. unfold Binary64.py_div.
  destruct (P =? 0)%float; cbn [bind]; [discriminate|].
  destruct (Binary64.py_int (Binary64.Household.balance hh / P)) as [q0|];
    cbn [bind]; [|discriminate].
  destruct (Binary64.of_int q0) as [quantity|] eqn:Eq; cbn [bind];
    [|discriminate].
  intros [= <- <-]. split; [reflexivity|]. split; [reflexivity|].
  exists quantity. split; [assumption|reflexivity].
Qed.

(** What a call that returns has computed, by the two branches. *)
Lemma place_order_and_pay_cases64 (hh : Binary64.Household.t) (P : float)
    (q : Z) (hh' : Binary64.Household.t) :
  Binary64.Household.place_order_and_pay hh P = Some (q, hh') ->
  exists demand,
    Binary64.of_int (Binary64.Household.size hh) = Some demand /\
    (((demand * P <=? Binary64.Household.balance hh)%float = true /\
      q = Binary64.Household.size hh /\
      hh' = Binary64.Household.set_balance hh
              (Binary64.Household.balance hh - demand * P)%float) \/
     ((demand * P <=? Binary64.Household.balance hh)%float = false /\
      Binary64.py_int (Binary64.Household.balance hh / P) = Some q /\
      exists quantity,
        Binary64.of_int q = Some quantity /\
        hh' = Binary64.Household.set_balance hh
                (Binary64.Household.balance hh - quantity * P)%float)).
Proof.
  intros H.
  destruct (Binary64.of_int (Binary64.Household.size hh)) as [demand|] eqn:Hd.
  - exists demand. split; [reflexivity|].
    destruct (demand * P <=? Binary64.Household.balance hh)%float eqn:Hc.
    + left. rewrite (place_order_and_pay_affordable64 hh P demand Hd Hc) in H.
      injection H as <- <-. auto.
    + right. split; [reflexivity|].
      apply (place_order_and_pay_clamped64 hh P demand q hh' Hd Hc H).
  - unfold Binary64.Household.place_order_and_pay,
      Binary64.Household.determine_food_demand in H.
    rewrite Z.mul_1_r, Hd in H. discriminate.
Qed.

(** C2. The program does not return [floor (B / P)] in the second case.
    With balance [1.89], size 3 and price [0.63], all three positive, the
    cost [3 * 0.63] exceeds the balance, exactly and as the program computes
    it, and [floor (1.89 / 0.63)] is 2; the program rounds the quotient to
    [3.0], returns 3, and is left with the balance [-2^-52], which is
    below zero, where [B - floor (B / P) * P] is not. *)
Theorem purchase_exceeds_floor :
  let hh := Binary64.Household.mk 0 Binary64.f_1_89 3 None in
  let P := Binary64.f_0_63 in
  exists (b p d : Q) (demand : float) (hh' : Binary64.Household.t),
    Binary64.exact (Binary64.Household.balance hh) = Some b /\
    Binary64.exact P = Some p /\
    0 <= b /\ 0 < p /\ (0 < Binary64.Household.size hh)%Z /\
    b < inject_Z (Binary64.Household.size hh) * p /\
    Binary64.of_int (Binary64.Household.size hh) = Some demand /\
    (demand * P <=? Binary64.Household.balance hh)%float = false /\
    Qfloor (b / p) = 2%Z /\
    Binary64.Household.place_order_and_pay hh P = Some (3%Z, hh') /\
    Binary64.Household.balance hh' = (-0x1p-52)%float /\
    Binary64.exact (Binary64.Household.balance hh') = Some d /\
    d < 0 /\ 0 <= b - inject_Z (Qfloor (b / p)) * p /\
    ~ d == b - inject_Z (Qfloor (b / p)) * p.
Proof.
  intros hh P. do 5 eexists.
  split; [vm_compute; reflexivity|]. split; [vm_compute; reflexivity|].
  split; [vm_compute; discriminate|]. split; [vm_compute; reflexivity|].
  split; [reflexivity|]. split; [vm_compute; reflexivity|].
  split; [vm_compute; reflexivity|]. split; [vm_compute; reflexivity|].
  split; [vm_compute; reflexivity|]. split; [vm_compute; reflexivity|].
  split; [vm_compute; reflexivity|]. split; [vm_compute; reflexivity|].
  split; [vm_compute; reflexivity|]. split; [vm_compute; discriminate|].
  vm_compute. discriminate.
Qed.

(** C5. The program lets a balance become negative.  With [M0 = 1.89],
    [N_H = 1], [household_size = 3] and [p = 0.63] the household starts
    with balance [1.89 / 1 = 1.89], which is not negative, and its first
    purchase at the positive price [0.63] returns 3 and leaves a balance
    below zero. *)
Theorem purchase_overdraws :
  exists (b : float) (hh' : Binary64.Household.t),
    Binary64.initial_balance Binary64.f_1_89 1 = Some b /\
    (0 <=? b)%float = true /\ (0 <? Binary64.f_0_63)%float = true /\
    Binary64.Household.place_order_and_pay
      (Binary64.Household.init 0 b 3) Binary64.f_0_63 = Some (3%Z, hh') /\
    (Binary64.Household.balance hh' <? 0)%float = true /\
    Binary64.Household.balance hh' = (-0x1p-52)%float.
Proof.
  do 2 eexists.
  split; [vm_compute; reflexivity|].
  repeat split; vm_compute; reflexivity.
Qed.



End Binary64Facts.

(** ** Money held in a dictionary *)

Definition sumQ (l : list Q) : Q := fold_right Qplus 0 l.

Section Measure.

Context {V : Type}.
Variable m : V -> Q.

Definition measure (d : dict V) : Q := sumQ (map m (values d)).

Lemma measure_set_present (d : dict V) (k : nat) (v v' : V) :
  get k d = Some v -> measure (set k v' d) == measure d - m v + m v'.
Proof.
  unfold measure, values.
  induction d as [|[k0 v0] d IH]; simpl; [discriminate|].
  destruct (Nat.eqb k k0) eqn:E; simpl.
  - intros [= ->]. ring.
  - intros H. rewrite (IH H). ring.
Qed.

Lemma measure_app (d1 d2 : dict V) :
  measure (d1 ++ d2) == measure d1 + measure d2.
Proof.
  unfold measure, values. induction d1 as [|[k v] d1 IH]; simpl.
  - ring.
  - rewrite IH. ring.
Qed.

End Measure.

Definition household_money (d : dict Household.t) : Q :=
  measure Household.balance d.

(** The money of a firm: its balance and the revenue not yet folded in. *)
Definition firm_holdings (f : Firm.t) : Q :=
  Firm.balance f + Firm.revenue_this_tick f.

Definition firm_money (d : dict Firm.t) : Q := measure firm_holdings d.

Definition total_money (s : Simulation) : Q :=
  household_money (households s) + firm_money (firms s).

(** ** Firm: payday *)

Section Payday.

Import Firm.

Lemma credit_inv (i : nat) (w : Q) (d d' : dict Household.t) :
  credit i w d = Some d' ->
  exists hh, get i d = Some hh /\
    d' = set i (Household.set_balance hh (Household.balance hh + w)) d.
Proof.
  unfold credit. destruct (get i d) as [hh|]; simpl; [|discriminate].
  intros [= <-]. now exists hh.
Qed.

Lemma credit_keys (i : nat) (w : Q) (d d' : dict Household.t) :
  credit i w d = Some d' -> keys d' = keys d.
Proof.
  intros H. apply credit_inv in H. destruct H as (hh & Hg & ->).
  apply keys_set_in. eapply get_Some_in_keys; eassumption.
Qed.

Lemma distribute_wages_keys (ids : list nat) (w : Q) :
  forall d d', distribute_wages ids w d = Some d' -> keys d' = keys d.
Proof.
  induction ids as [|i ids IH]; simpl; intros d d'.
  - now intros [= <-].
  - destruct (credit i w d) as [d1|] eqn:C; simpl; [|discriminate].
    intros H. rewrite (IH _ _ H). eapply credit_keys; eassumption.
Qed.

(** No [KeyError] when every worker is a key of the registry. *)
Lemma distribute_wages_total (ids : list nat) (w : Q) :
  forall d, incl ids (keys d) -> exists d', distribute_wages ids w d = Some d'.
Proof.
  induction ids as [|i ids IH]; simpl; intros d Hin; [eauto|].
  destruct (in_keys_get d i) as [hh Hg]; [apply Hin; now left|].
  unfold credit at 1. rewrite Hg. simpl.
  apply IH. intros j Hj. rewrite keys_set_in.
  - apply Hin. now right.
  - eapply get_Some_in_keys; eassumption.
Qed.

Lemma distribute_wages_other (ids : list nat) (w : Q) (j : nat) :
  ~ In j ids ->
  forall d d', distribute_wages ids w d = Some d' -> get j d' = get j d.
Proof.
  induction ids as [|i ids IH]; simpl; intros Hj d d'.
  - now intros [= <-].
  - destruct (credit i w d) as [d1|] eqn:C; simpl; [|discriminate].
    intros H. rewrite (IH (fun X => Hj (or_intror X)) _ _ H).
    apply credit_inv in C. destruct C as (hh & _ & ->).
    apply get_set_neq. intros ->. apply Hj. now left.
Qed.

(** A worker listed once is credited once. *)
Lemma distribute_wages_worker (ids : list nat) (w : Q) (j : nat) :
  NoDup ids -> In j ids ->
  forall d d' hh,
    distribute_wages ids w d = Some d' -> get j d = Some hh ->
    get j d' =
      Some (Household.set_balance hh (Household.balance hh + w)).
Proof.
  induction ids as [|i ids IH]; simpl; intros Hnd Hj d d' hh; [tauto|].
  inversion Hnd as [|? ? Hni Hnd']; subst.
  destruct (credit i w d) as [d1|] eqn:C; simpl; [|discriminate].
  apply credit_inv in C. destruct C as (hi & Hgi & ->).
  intros H Hg. destruct (Nat.eq_dec i j) as [->|Hne].
  - rewrite (distribute_wages_other _ _ _ Hni _ _ H), get_set_eq. congruence.
  - destruct Hj as [->|Hj]; [congruence|].
    apply (IH Hnd' Hj _ _ _ H). now rewrite get_set_neq.
Qed.

Lemma distribute_wages_money (ids : list nat) (w : Q) :
  forall d d', distribute_wages ids w d = Some d' ->
    household_money d' ==
      household_money d + inject_Z (Z.of_nat (length ids)) * w.
Proof.
  induction ids as [|i ids IH]; intros d d'.
  - simpl. intros [= <-]. ring.
  - cbn [distribute_wages length].
    destruct (credit i w d) as [d1|] eqn:C; simpl bind; [|discriminate].
    intros H. rewrite (IH _ _ H).
    apply credit_inv in C. destruct C as (hh & Hg & ->).
    unfold household_money. rewrite (measure_set_present _ _ _ _ _ Hg).
    rewrite Nat2Z.inj_succ. unfold Z.succ. rewrite inject_Z_plus.
    simpl Household.balance. ring.
Qed.

Lemma inject_length_nonzero (A : Type) (x : A) (l : list A) :
  ~ inject_Z (Z.of_nat (length (x :: l))) == 0.
Proof.
  unfold Qeq. cbn [Qnum Qden inject_Z length]. lia.
Qed.

(** What [pay_workers] computes, by the two cases of the roster. *)
Lemma pay_workers_inv (f f' : t) (hs hs' : dict Household.t) :
  pay_workers f hs = Some (f', hs') ->
  let B := balance f + revenue_this_tick f in
  (worker_ids f = [] /\ f' = fold_revenue f /\ hs' = hs) \/
  (worker_ids f <> [] /\
   f' = set_balance (fold_revenue f) (B - B * wage_rate f) /\
   distribute_wages (worker_ids f)
     (B * wage_rate f / inject_Z (Z.of_nat (length (worker_ids f)))) hs
     = Some hs').
Proof.
  unfold pay_workers. simpl.
  destruct (worker_ids f) as [|i ids] eqn:E.
  - intros [= <- <-]. left. auto.
  - rewrite py_div_Some by apply inject_length_nonzero. cbn [bind].
    match goal with
    | |- context [distribute_wages ?l ?w ?d] =>
        destruct (distribute_wages l w d) as [d1|] eqn:D
    end; cbn [bind]; [|discriminate].
    intros [= <- <-]. right. split; [discriminate|]. split; reflexivity.
Qed.

Lemma pay_workers_total (f : t) (hs : dict Household.t) :
  incl (worker_ids f) (keys hs) ->
  exists f' hs', pay_workers f hs = Some (f', hs').
Proof.
  intros Hin. unfold pay_workers. simpl.
  destruct (worker_ids f) as [|i ids] eqn:E; [eauto|].
  rewrite py_div_Some by apply inject_length_nonzero. cbn [bind].
  match goal with
  | |- context [distribute_wages ?l ?w ?d] =>
      destruct (distribute_wages_total l w d Hin) as [d1 D]
  end.
  rewrite D. cbn [bind]. eauto.
Qed.

Lemma pay_workers_keys (f f' : t) (hs hs' : dict Household.t) :
  pay_workers f hs = Some (f', hs') -> keys hs' = keys hs.
Proof.
  intros H. apply pay_workers_inv in H.
  destruct H as [(_ & _ & ->)|(_ & _ & D)]; [reflexivity|].
  eapply distribute_wages_keys; eassumption.
Qed.

(** Payday moves money from the firm to its workers and makes none. *)
Lemma pay_workers_money (f f' : t) (hs hs' : dict Household.t) :
  pay_workers f hs = Some (f', hs') ->
  household_money hs' + firm_holdings f' ==
  household_money hs + firm_holdings f.
Proof.
  intros H. apply pay_workers_inv in H.
  destruct H as [(_ & -> & ->)|(Hne & -> & D)]; unfold firm_holdings; simpl.
  - ring.
  - rewrite (distribute_wages_money _ _ _ _ D).
    destruct (worker_ids f) as [|i ids]; [congruence|].
    field. apply inject_length_nonzero.
Qed.

End Payday.

(** C3. For a firm with balance [b], revenue accumulator [r], wage rate [w]
    and a roster of [k] workers (distinct ids, all in the registry),
    [pay_workers] folds [r] into the balance and resets the accumulator to
    zero; with [B = b + r], when [k > 0] the balance of every worker is its
    balance before the call plus exactly [B * w / k], nothing else of a
    worker and no other household changes, and the firm is left with
    [B * (1 - w)]; when [k = 0] the firm is left with [B] and the registry
    is unchanged.  The id, price, wage rate and roster of the firm stay as
    they were. *)
Theorem pay_workers_spec (f : Firm.t) (hs : dict Household.t) :
  let b := Firm.balance f in
  let r := Firm.revenue_this_tick f in
  let w := Firm.wage_rate f in
  let k := length (Firm.worker_ids f) in
  let B := b + r in
  NoDup (Firm.worker_ids f) ->
  incl (Firm.worker_ids f) (keys hs) ->
  exists f' hs',
    Firm.pay_workers f hs = Some (f', hs') /\
    Firm.revenue_this_tick f' = 0 /\
    Firm.id f' = Firm.id f /\ Firm.price f' = Firm.price f /\
    Firm.wage_rate f' = w /\ Firm.worker_ids f' = Firm.worker_ids f /\
    keys hs' = keys hs /\
    ((0 < k)%nat ->
       Firm.balance f' == B * (1 - w) /\
       (forall i hh,
          In i (Firm.worker_ids f) -> get i hs = Some hh ->
          exists hh',
            get i hs' = Some hh' /\
            Household.balance hh' =
              Household.balance hh + B * w / inject_Z (Z.of_nat k) /\
            Household.id hh' = Household.id hh /\
            Household.size hh' = Household.size hh /\
            Household.employer_id hh' = Household.employer_id hh) /\
       (forall i, ~ In i (Firm.worker_ids f) -> get i hs' = get i hs)) /\
    (k = 0%nat -> Firm.balance f' = B /\ hs' = hs).
Proof.
  intros b r w k B Hnd Hin.
  destruct (pay_workers_total f hs Hin) as (f' & hs' & H).
  exists f', hs'. split; [assumption|].
  pose proof (pay_workers_keys _ _ _ _ H) as Hk.
  apply pay_workers_inv in H. fold b r B w in H.
  destruct H as [(E & -> & ->)|(Hne & -> & D)].
  - repeat (split; [reflexivity|]). split.
    + intros Hk0. subst k. rewrite E in Hk0. simpl in Hk0. lia.
    + intros _. split; reflexivity.
  - repeat (split; [reflexivity|]). split; [assumption|]. split.
    + intros _. split; [simpl; ring|]. split.
      * intros i hh Hi Hg.
        pose proof (distribute_wages_worker _ _ _ Hnd Hi _ _ _ D Hg) as Hw.
        eexists. split; [exact Hw|]. repeat split.
      * intros i Hi. apply (distribute_wages_other _ _ _ Hi _ _ D).
    + intros Hk0. subst k.
      destruct (Firm.worker_ids f); [congruence|discriminate].
Qed.

Lemma pay_workers_spec_witness :
  let f := Firm.mk 7 30 10 (1 # 2) [2%nat; 0%nat] 10 in
  let hs := [(0%nat, Household.mk 0 40 1 (Some 7%nat));
             (1%nat, Household.mk 1 8 1 (Some 3%nat));
             (2%nat, Household.mk 2 0 1 (Some 7%nat))] in
  exists f' hs' h0 h2,
    Firm.pay_workers f hs = Some (f', hs') /\
    Firm.revenue_this_tick f' = 0 /\
    Firm.balance f' == 20 /\
    get 0%nat hs' = Some h0 /\ Household.balance h0 == 50 /\
    get 2%nat hs' = Some h2 /\ Household.balance h2 == 10 /\
    get 1%nat hs' = Some (Household.mk 1 8 1 (Some 3%nat)).
Proof.
  intros f hs.
  destruct (pay_workers_spec f hs)
    as (f' & hs' & H & Hr & _ & _ & _ & _ & _ & Hpos & _).
  - simpl. repeat constructor; simpl; intuition discriminate.
  - intros i [<-|[<-|[]]]; simpl; auto.
  - destruct (Hpos ltac:(simpl; lia)) as (Hb & Hw & Ho).
    destruct (Hw 0%nat (Household.mk 0 40 1 (Some 7%nat)))
      as (h0 & G0 & B0 & _); [simpl; auto|reflexivity|].
    destruct (Hw 2%nat (Household.mk 2 0 1 (Some 7%nat)))
      as (h2 & G2 & B2 & _); [simpl; auto|reflexivity|].
    exists f', hs', h0, h2.
    split; [assumption|]. split; [assumption|].
    split; [rewrite Hb; reflexivity|].
    split; [assumption|]. split; [rewrite B0; reflexivity|].
    split; [assumption|]. split; [rewrite B2; reflexivity|].
    rewrite Ho; [reflexivity|]. simpl. intuition discriminate.
Defined.

(** The balance after payday counts the revenue of the tick: a firm with
    balance 0, revenue 10 and wage rate 1/2 is left with 5 when it has a
    worker and with 10 when it has none, not with 0. *)
Lemma pay_workers_counts_revenue :
  let hs := [(0%nat, Household.mk 0 40 1 (Some 0%nat))] in
  (let f := Firm.mk 0 0 10 (1 # 2) [0%nat] 10 in
   exists f' hs',
     Firm.pay_workers f hs = Some (f', hs') /\
     Firm.worker_ids f <> [] /\
     ~ Firm.balance f' == Firm.balance f * (1 - Firm.wage_rate f)) /\
  (let f := Firm.mk 0 0 10 (1 # 2) [] 10 in
   exists f' hs',
     Firm.pay_workers f hs = Some (f', hs') /\
     Firm.worker_ids f = [] /\
     ~ Firm.balance f' == Firm.balance f).
Proof.
  split.
  - do 2 eexists. split; [reflexivity|]. split; [discriminate|].
    simpl. unfold Qeq. simpl. lia.
  - do 2 eexists. split; [reflexivity|]. split; [reflexivity|].
    simpl. unfold Qeq. simpl. lia.
Qed.

(** C7, amended. After [pay_workers] the balance of the firm is
    [(balance_before_fold + revenue) * (1 - wage_rate)] when the roster is
    not empty and [balance_before_fold + revenue] when it is empty, where
    [revenue] is the accumulator folded in by the call. *)
Theorem pay_workers_firm_balance (f : Firm.t) (hs : dict Household.t) :
  let balance_before_fold := Firm.balance f in
  let revenue := Firm.revenue_this_tick f in
  incl (Firm.worker_ids f) (keys hs) ->
  exists f' hs',
    Firm.pay_workers f hs = Some (f', hs') /\
    (Firm.worker_ids f <> [] ->
     Firm.balance f' ==
       (balance_before_fold + revenue) * (1 - Firm.wage_rate f)) /\
    (Firm.worker_ids f = [] ->
     Firm.balance f' = balance_before_fold + revenue).
Proof.
  intros b r Hin.
  destruct (pay_workers_total f hs Hin) as (f' & hs' & H).
  exists f', hs'. split; [assumption|].
  apply pay_workers_inv in H. fold b r in H.
  destruct H as [(E & -> & ->)|(Hne & -> & D)].
  - split; [congruence|reflexivity].
  - split; [intros _; simpl; ring|congruence].
Qed.

Lemma pay_workers_firm_balance_witness :
  let f := Firm.mk 0 0 10 (1 # 2) [0%nat] 10 in
  let hs := [(0%nat, Household.mk 0 40 1 (Some 0%nat))] in
  exists f' hs',
    Firm.pay_workers f hs = Some (f', hs') /\
    Firm.balance f' == (0 + 10) * (1 - (1 # 2)).
Proof.
  intros f hs.
  destruct (pay_workers_firm_balance f hs) as (f' & hs' & H & Hb & _).
  - intros i [<-|[]]. simpl. now left.
  - exists f', hs'. split; [assumption|]. apply Hb. discriminate.
Defined.

(** ** Randomness *)

Lemma random_choice_inv {A : Type} (l : list A) (g g' : Rng) (x : A) :
  random_choice l g = Some (x, g') ->
  nth_error l (draw g 0 mod length l) = Some x /\ In x l /\ g' = next g.
Proof.
  unfold random_choice. destruct l as [|a l]; [discriminate|].
  destruct (nth_error (a :: l) (draw g 0 mod length (a :: l))) as [y|] eqn:E;
    simpl bind; [|discriminate].
  intros [= <- <-]. repeat split. eapply nth_error_In; eassumption.
Qed.

(** [random.choice] raises no exception on a list that is not empty. *)
Lemma random_choice_total {A : Type} (l : list A) (g : Rng) :
  l <> [] -> exists x, random_choice l g = Some (x, next g).
Proof.
  intros Hne. unfold random_choice. destruct l as [|a l]; [congruence|].
  destruct (nth_error (a :: l) (draw g 0 mod length (a :: l))) as [y|] eqn:E.
  - exists y. reflexivity.
  - apply nth_error_None in E.
    pose proof (Nat.mod_upper_bound (draw g 0) (length (a :: l))) as Hb.
    simpl in *. lia.
Qed.

(** ** Setup *)

Section Setup.

Variable cfg : Config.
Variable initial_balance : Q.
Variable firm_ids : list nat.

Lemma create_firms_app (ids : list nat) :
  forall fs,
    NoDup (keys fs ++ ids) ->
    create_firms ids cfg fs =
      fs ++ map (fun i => (i, Firm.init i (p cfg) (wage_rate cfg))) ids.
Proof.
  induction ids as [|i ids IH]; intros fs Hnd; simpl.
  - now rewrite app_nil_r.
  - assert (Hni : ~ In i (keys fs)).
    { intros Hi. apply NoDup_remove_2 in Hnd. apply Hnd.
      apply in_or_app. now left. }
    rewrite set_notin by assumption. rewrite IH.
    + now rewrite <- app_assoc.
    + unfold keys in *. rewrite map_app, <- app_assoc. exact Hnd.
Qed.

Lemma set_set {V : Type} (d : dict V) (k : nat) (v v' : V) :
  set k v' (set k v d) = set k v' d.
Proof.
  induction d as [|[k0 v0] d IH]; simpl.
  - now rewrite Nat.eqb_refl.
  - destruct (Nat.eqb k k0) eqn:E; simpl.
    + now rewrite Nat.eqb_refl.
    + now rewrite E, IH.
Qed.

(** One round of the loop: the new household with its employer, and the
    employer with the household on its roster. *)
Lemma create_household_inv (i : nat) hs fs g hs' fs' g' :
  create_household i cfg initial_balance firm_ids (hs, fs, g)
    = Some (hs', fs', g') ->
  exists e f,
    random_choice firm_ids g = Some (e, g') /\
    get e fs = Some f /\
    hs' = set i (Household.mk i initial_balance (household_size cfg) (Some e)) hs /\
    fs' = set e (Firm.add_worker f i) fs.
Proof.
  unfold create_household.
  destruct (random_choice firm_ids g) as [[e g1]|]; simpl bind; [|discriminate].
  rewrite get_set_eq. simpl bind.
  destruct (get e fs) as [f|] eqn:Hf; simpl bind; [|discriminate].
  intros [= <- <- <-]. exists e, f. repeat split; [assumption|].
  now rewrite set_set.
Qed.

Definition household_created (fs_keys : list nat) (kh : nat * Household.t) : Prop :=
  Household.id (snd kh) = fst kh /\
  Household.balance (snd kh) = initial_balance /\
  Household.size (snd kh) = household_size cfg /\
  exists e, Household.employer_id (snd kh) = Some e /\ In e fs_keys.

Definition firm_created (kf : nat * Firm.t) : Prop :=
  Firm.id (snd kf) = fst kf /\
  Firm.price (snd kf) = p cfg /\
  Firm.wage_rate (snd kf) = wage_rate cfg /\
  Firm.balance (snd kf) = 0 /\
  Firm.revenue_this_tick (snd kf) = 0 /\
  NoDup (Firm.worker_ids (snd kf)).

(** The rosters and the employer fields say the same. *)
Definition employment (hs : dict Household.t) (fs : dict Firm.t) : Prop :=
  forall i e f,
    get e fs = Some f ->
    (In i (Firm.worker_ids f) <->
     exists h, get i hs = Some h /\ Household.employer_id h = Some e).

Record setup_inv (done : list nat) (hs : dict Household.t)
    (fs : dict Firm.t) : Prop := {
  si_hkeys : keys hs = done;
  si_fkeys : keys fs = firm_ids;
  si_households : Forall (household_created firm_ids) hs;
  si_firms : Forall firm_created fs;
  si_employment : employment hs fs
}.

Lemma create_household_step (i : nat) (done : list nat) hs fs g :
  firm_ids <> [] -> ~ In i done -> setup_inv done hs fs ->
  exists hs' fs',
    create_household i cfg initial_balance firm_ids (hs, fs, g)
      = Some (hs', fs', next g) /\
    setup_inv (done ++ [i]) hs' fs'.
Proof.
  intros Hne Hi [Hhk Hfk Hhs Hfs Hemp].
  destruct (random_choice_total firm_ids g Hne) as [e Hc].
  pose proof (random_choice_inv _ _ _ _ Hc) as (_ & He & _).
  destruct (in_keys_get fs e) as [f Hf]; [now rewrite Hfk|].
  assert (Hgi : get i hs = None).
  { destruct (get i hs) eqn:G; [|reflexivity].
    apply get_Some_in_keys in G. rewrite Hhk in G. contradiction. }
  assert (Hnw : forall e' f', get e' fs = Some f' -> ~ In i (Firm.worker_ids f')).
  { intros e' f' G Hin. apply (Hemp i e' f' G) in Hin.
    destruct Hin as (h & Gh & _). congruence. }
  exists (set i (Household.mk i initial_balance (household_size cfg) (Some e)) hs),
         (set e (Firm.add_worker f i) fs).
  split.
  - unfold create_household. rewrite Hc. simpl bind.
    rewrite get_set_eq. simpl bind. rewrite Hf. simpl bind.
    now rewrite set_set.
  - constructor.
    + rewrite keys_set_notin by now rewrite Hhk. now rewrite Hhk.
    + rewrite keys_set_in; [assumption|]. eapply get_Some_in_keys; eassumption.
    + apply Forall_set; [assumption|].
      repeat split; simpl. exists e. auto.
    + apply Forall_set; [assumption|].
      pose proof (Forall_get _ _ _ _ Hfs Hf) as (F1 & F2 & F3 & F4 & F5 & F6).
      simpl in *. repeat split; try assumption.
      apply NoDup_app; [assumption|repeat constructor; simpl; tauto|].
      intros x Hx [<-|[]]. eapply Hnw; eassumption.
    + intros j e' f' G.
      destruct (Nat.eq_dec e e') as [<-|Hee].
      * rewrite get_set_eq in G. injection G as <-. simpl.
        rewrite in_app_iff. simpl.
        destruct (Nat.eq_dec i j) as [<-|Hij].
        -- rewrite get_set_eq. split; [|tauto].
           intros _. eexists. split; reflexivity.
        -- rewrite get_set_neq by assumption. rewrite <- (Hemp j e f Hf).
           split; [intros [H|[H|[]]]; [assumption|contradiction]|tauto].
      * rewrite get_set_neq in G by assumption.
        destruct (Nat.eq_dec i j) as [<-|Hij].
        -- rewrite get_set_eq. split.
           ++ intros Hin. exfalso. eapply Hnw; eassumption.
           ++ intros (h & [= <-] & [= Heq]). congruence.
        -- rewrite get_set_neq by assumption. apply Hemp. assumption.
Qed.

Lemma create_households_loop (ids : list nat) :
  firm_ids <> [] ->
  forall done hs fs g,
    NoDup (done ++ ids) -> setup_inv done hs fs ->
    exists hs' fs' g',
      create_households ids cfg initial_balance firm_ids (hs, fs, g)
        = Some (hs', fs', g') /\
      setup_inv (done ++ ids) hs' fs'.
Proof.
  intros Hne. induction ids as [|i ids IH]; intros done hs fs g Hnd Hinv.
  - rewrite app_nil_r. simpl. eauto.
  - assert (Hi : ~ In i done).
    { apply NoDup_remove_2 in Hnd. intros H. apply Hnd.
      apply in_or_app. now left. }
    destruct (create_household_step i done hs fs g Hne Hi Hinv)
      as (hs1 & fs1 & Hstep & Hinv1).
    cbn [create_households]. rewrite Hstep. simpl bind.
    replace (done ++ i :: ids) with ((done ++ [i]) ++ ids) in *
      by now rewrite <- app_assoc.
    apply IH; assumption.
Qed.

End Setup.

Lemma py_range_NoDup (n : Z) : NoDup (py_range n).
Proof. apply seq_NoDup. Qed.

Lemma created_firms (cfg : Config) (ids : list nat) :
  Forall (firm_created cfg)
    (map (fun i => (i, Firm.init i (p cfg) (wage_rate cfg))) ids).
Proof.
  induction ids as [|i ids IH]; simpl; constructor; [|assumption].
  repeat split. constructor.
Qed.

Lemma get_created_firm (cfg : Config) (ids : list nat) (e : nat) (f : Firm.t) :
  get e (map (fun i => (i, Firm.init i (p cfg) (wage_rate cfg))) ids) = Some f ->
  Firm.worker_ids f = [].
Proof.
  induction ids as [|i ids IH]; simpl; [discriminate|].
  destruct (Nat.eqb e i); [now intros [= <-]|assumption].
Qed.

(** Whenever the constructor returns, the world is set up. *)
Lemma setup_world_inv (cfg : Config) (g : Rng) (s : Simulation) (g' : Rng) :
  _setup_world cfg g = Some (s, g') ->
  config s = cfg /\
  ~ inject_Z (N_H cfg) == 0 /\
  setup_inv cfg (M0 cfg / inject_Z (N_H cfg)) (py_range (N_F cfg))
    (py_range (N_H cfg)) (households s) (firms s).
Proof.
  unfold _setup_world.
  rewrite create_firms_app by (simpl; apply py_range_NoDup). simpl app.
  set (fs0 := map _ (py_range (N_F cfg))).
  assert (Hk0 : keys fs0 = py_range (N_F cfg)).
  { unfold fs0, keys. rewrite map_map. simpl. apply map_id. }
  destruct (py_div (M0 cfg) (inject_Z (N_H cfg))) as [ib|] eqn:D;
    simpl bind; [|discriminate].
  apply py_div_inv in D. destruct D as [Hnz ->].
  rewrite Hk0.
  assert (Hinit : setup_inv cfg (M0 cfg / inject_Z (N_H cfg))
                    (py_range (N_F cfg)) [] empty fs0).
  { constructor; [reflexivity|assumption|constructor|apply created_firms|].
    intros i e f G. apply get_created_firm in G. rewrite G. simpl.
    split; [tauto|]. intros (h & [=] & _). }
  destruct (py_range (N_H cfg)) as [|i ids] eqn:R.
  - simpl. intros [= <- <-]. simpl. auto.
  - destruct (py_range (N_F cfg)) as [|e es] eqn:F.
    + cbn. discriminate.
    + destruct (create_households_loop cfg (M0 cfg / inject_Z (N_H cfg))
                  (e :: es) (i :: ids) ltac:(discriminate) [] empty fs0 g)
        as (hs' & fs' & g1 & Hl & Hinv); [| assumption |].
      * simpl app. rewrite <- R. apply py_range_NoDup.
      * rewrite Hl. simpl bind. intros [= <- <-]. simpl. auto.
Qed.

Lemma setup_world_total (cfg : Config) (g : Rng) :
  (0 < N_F cfg)%Z -> (0 < N_H cfg)%Z ->
  exists s g', _setup_world cfg g = Some (s, g').
Proof.
  intros HF HH. unfold _setup_world.
  rewrite create_firms_app by (simpl; apply py_range_NoDup). simpl app.
  set (fs0 := map _ (py_range (N_F cfg))).
  assert (Hk0 : keys fs0 = py_range (N_F cfg)).
  { unfold fs0, keys. rewrite map_map. simpl. apply map_id. }
  rewrite py_div_Some.
  2:{ unfold Qeq. simpl. lia. }
  simpl bind. rewrite Hk0.
  destruct (create_households_loop cfg (M0 cfg / inject_Z (N_H cfg))
              (py_range (N_F cfg)) (py_range (N_H cfg))) with
    (done := @nil nat) (hs := @empty Household.t) (fs := fs0) (g := g)
    as (hs' & fs' & g1 & Hl & _).
  - unfold py_range. destruct (Z.to_nat (N_F cfg)) eqn:E; [lia|discriminate].
  - simpl. apply py_range_NoDup.
  - constructor; [reflexivity|assumption|constructor|apply created_firms|].
    intros i e f G. apply get_created_firm in G. rewrite G. simpl.
    split; [tauto|]. intros (h & [=] & _).
  - rewrite Hl. simpl bind. eauto.
Qed.

Lemma household_money_uniform (b : Q) (hs : dict Household.t) :
  Forall (fun kh => Household.balance (snd kh) = b) hs ->
  household_money hs == inject_Z (Z.of_nat (length hs)) * b.
Proof.
  unfold household_money, measure, values.
  induction 1 as [|[k h] hs Hb _ IH].
  - simpl. ring.
  - cbn [map sumQ fold_right length snd]. fold (sumQ (map Household.balance (map snd hs))).
    rewrite IH. simpl in Hb. rewrite Hb.
    rewrite Nat2Z.inj_succ. unfold Z.succ. rewrite inject_Z_plus. ring.
Qed.

(** C8. With [N_F > 0] and [N_H > 0] the setup returns a world in which
    the firm ids are exactly [0 .. N_F - 1] and the household ids exactly
    [0 .. N_H - 1]; every household has one employer, on whose roster it
    stands, and stands on no other roster; every household starts with
    [M0 / N_H], and the initial balances add up to [M0]. *)
Theorem setup_world_spec (cfg : Config) (g : Rng) :
  (0 < N_F cfg)%Z -> (0 < N_H cfg)%Z ->
  exists s g',
    _setup_world cfg g = Some (s, g') /\
    keys (firms s) = seq 0 (Z.to_nat (N_F cfg)) /\
    (forall k f, get k (firms s) = Some f -> Firm.id f = k) /\
    keys (households s) = seq 0 (Z.to_nat (N_H cfg)) /\
    (forall i h,
       get i (households s) = Some h ->
       Household.id h = i /\
       Household.balance h = M0 cfg / inject_Z (N_H cfg) /\
       exists e f,
         Household.employer_id h = Some e /\
         get e (firms s) = Some f /\
         In i (Firm.worker_ids f) /\
         (forall e' f',
            get e' (firms s) = Some f' -> In i (Firm.worker_ids f') -> e' = e)) /\
    household_money (households s) == M0 cfg.
Proof.
  intros HF HH.
  destruct (setup_world_total cfg g HF HH) as (s & g' & Hs).
  exists s, g'. split; [assumption|].
  apply setup_world_inv in Hs.
  destruct Hs as (_ & Hnz & [Hhk Hfk Hhs Hfs Hemp]).
  split; [exact Hfk|]. split.
  { intros k f G. apply (Forall_get _ _ _ _ Hfs G). }
  split; [exact Hhk|]. split.
  - intros i h G.
    pose proof (Forall_get _ _ _ _ Hhs G) as (H1 & H2 & _ & e & He & Hin).
    simpl in *. repeat split; try assumption.
    destruct (in_keys_get (firms s) e) as [f Hf]; [now rewrite Hfk|].
    exists e, f. repeat split; try assumption.
    + apply (Hemp i e f Hf). eauto.
    + intros e' f' G' Hi. apply (Hemp i e' f' G') in Hi.
      destruct Hi as (h' & Gh & Eh). congruence.
  - rewrite (household_money_uniform (M0 cfg / inject_Z (N_H cfg))).
    + assert (E : length (households s) = Z.to_nat (N_H cfg)).
      { rewrite <- (length_map fst). fold (keys (households s)).
        rewrite Hhk. apply length_seq. }
      rewrite E, Z2Nat.id by lia. field. exact Hnz.
    + eapply Forall_impl; [|exact Hhs]. intros kh H. apply H.
Qed.

Lemma setup_world_spec_witness :
  let cfg := mkConfig 2 2 10 (1 # 2) 100 1 in
  exists s g',
    _setup_world cfg (mkRng (fun n => n) 0) = Some (s, g') /\
    household_money (households s) == 100.
Proof.
  intros cfg.
  destruct (setup_world_spec cfg (mkRng (fun n => n) 0))
    as (s & g' & H & _ & _ & _ & _ & Hm); [reflexivity|reflexivity|].
  exists s, g'. split; assumption.
Defined.

(** ** Loops *)

Section ForEach.

Context {S : Type}.
Variable body : nat -> S -> option S.
Variable I : S -> Prop.

(** A property kept by every round is kept by the loop. *)
Lemma for_each_inv (ks : list nat) :
  (forall k st st', In k ks -> I st -> body k st = Some st' -> I st') ->
  forall st st', I st -> for_each body ks st = Some st' -> I st'.
Proof.
  induction ks as [|k ks IH]; intros Hstep st st' HI; simpl.
  - now intros [= <-].
  - destruct (body k st) as [st1|] eqn:B; simpl bind; [|discriminate].
    apply IH.
    + intros k' s1 s2 Hk. apply Hstep. now right.
    + apply (Hstep k st st1); [now left|assumption|assumption].
Qed.

(** The loop raises no exception when no round does. *)
Lemma for_each_total (ks : list nat) :
  (forall k st st', In k ks -> I st -> body k st = Some st' -> I st') ->
  (forall k st, In k ks -> I st -> exists st', body k st = Some st') ->
  forall st, I st -> exists st', for_each body ks st = Some st'.
Proof.
  induction ks as [|k ks IH]; intros Hstep Hrun st HI; simpl.
  - eauto.
  - destruct (Hrun k st) as [st1 B]; [now left|assumption|].
    rewrite B. simpl bind. apply IH.
    + intros k' s1 s2 Hk. apply Hstep. now right.
    + intros k' s1 Hk. apply Hrun. now right.
    + apply (Hstep k st st1); [now left|assumption|assumption].
Qed.

End ForEach.

(** ** The rounds of the tick *)

Definition receipt (hh : Household.t) (f : Firm.t) (q : Z) : Transaction :=
  mkTransaction (Household.id hh) (Firm.id f) (inject_Z q * Firm.price f).

(** What one round of the shopping loop does. *)
Lemma shop_inv (fl : list nat) (k : nat) (st st' : TickState) :
  shop fl k st = Some st' ->
  exists hh fk f q hh',
    get k (ts_households st) = Some hh /\
    random_choice fl (ts_rng st) = Some (fk, ts_rng st') /\
    get fk (ts_firms st) = Some f /\
    Household.place_order_and_pay hh (Firm.price f) = Some (q, hh') /\
    ts_households st' = set k hh' (ts_households st) /\
    (((0 < q)%Z /\
      ts_firms st' =
        set fk (Firm.receive_payment f (inject_Z q * Firm.price f)) (ts_firms st) /\
      ts_transactions st' = ts_transactions st ++ [receipt hh' f q]) \/
     ((q <= 0)%Z /\
      ts_firms st' = ts_firms st /\
      ts_transactions st' = ts_transactions st)).
Proof.
  unfold shop.
  destruct (get k (ts_households st)) as [hh|]; simpl bind; [|discriminate].
  destruct (random_choice fl (ts_rng st)) as [[fk g]|]; simpl bind; [|discriminate].
  destruct (get fk (ts_firms st)) as [f|] eqn:Hf; simpl bind; [|discriminate].
  destruct (Household.place_order_and_pay hh (Firm.price f)) as [[q hh']|] eqn:Hp;
    simpl bind; [|discriminate].
  destruct (0 <? q)%Z eqn:Hq; intros [= <-]; simpl;
    exists hh, fk, f, q, hh'; repeat split; try assumption.
  - left. apply Z.ltb_lt in Hq. auto.
  - right. apply Z.ltb_ge in Hq. auto.
Qed.

(** What one round of the payday loop does. *)
Lemma payday_inv (fk : nat) (st st' : TickState) :
  payday fk st = Some st' ->
  exists f f',
    get fk (ts_firms st) = Some f /\
    Firm.pay_workers f (ts_households st) = Some (f', ts_households st') /\
    ts_firms st' = set fk f' (ts_firms st) /\
    ts_transactions st' = ts_transactions st /\
    ts_rng st' = ts_rng st.
Proof.
  unfold payday.
  destruct (get fk (ts_firms st)) as [f|]; simpl bind; [|discriminate].
  destruct (Firm.pay_workers f (ts_households st)) as [[f' hs]|] eqn:Hp;
    simpl bind; [|discriminate].
  intros [= <-]. simpl. exists f, f'. repeat split. assumption.
Qed.

(** ** Invariants of the world *)

Section Invariants.

Variable cfg : Config.
Variable hkeys fkeys : list nat.

(** The parts of the agents that never change. *)
Definition firm_shape (kf : nat * Firm.t) : Prop :=
  Firm.id (snd kf) = fst kf /\
  Firm.price (snd kf) = p cfg /\
  Firm.wage_rate (snd kf) = wage_rate cfg /\
  incl (Firm.worker_ids (snd kf)) hkeys.

Definition household_shape (kh : nat * Household.t) : Prop :=
  Household.id (snd kh) = fst kh /\
  Household.size (snd kh) = household_size cfg.

Record shape (hs : dict Household.t) (fs : dict Firm.t) : Prop := {
  sh_hkeys : keys hs = hkeys;
  sh_fkeys : keys fs = fkeys;
  sh_households : Forall household_shape hs;
  sh_firms : Forall firm_shape fs
}.

Definition firm_solvent (kf : nat * Firm.t) : Prop :=
  0 <= Firm.balance (snd kf) /\ 0 <= Firm.revenue_this_tick (snd kf).

Definition household_solvent (kh : nat * Household.t) : Prop :=
  0 <= Household.balance (snd kh).

Definition tick_shape (st : TickState) : Prop :=
  shape (ts_households st) (ts_firms st).

Definition tick_firms_solvent (st : TickState) : Prop :=
  tick_shape st /\ Forall firm_solvent (ts_firms st).

Definition tick_solvent (st : TickState) : Prop :=
  tick_firms_solvent st /\ Forall household_solvent (ts_households st).

Lemma place_order_and_pay_shape (k : nat) (hh hh' : Household.t) (P : Q) (q : Z) :
  Household.place_order_and_pay hh P = Some (q, hh') ->
  household_shape (k, hh) -> household_shape (k, hh').
Proof.
  intros H. apply place_order_and_pay_inv in H. destruct H as [-> _].
  trivial.
Qed.

Lemma shop_shape (k : nat) (st st' : TickState) :
  tick_shape st -> shop fkeys k st = Some st' -> tick_shape st'.
Proof.
  intros [Hhk Hfk Hhs Hfs] H. apply shop_inv in H.
  destruct H as (hh & fk & f & q & hh' & Hg & _ & Hf & Hp & Eh & Hcase).
  assert (Hh' : shape (ts_households st') (ts_firms st)).
  { constructor; try assumption.
    - rewrite Eh, keys_set_in; [assumption|].
      eapply get_Some_in_keys; eassumption.
    - rewrite Eh. apply Forall_set; [assumption|].
      eapply place_order_and_pay_shape; [eassumption|].
      apply (Forall_get _ _ _ _ Hhs Hg). }
  destruct Hcase as [(_ & Ef & _)|(_ & Ef & _)]; unfold tick_shape;
    rewrite Ef; [|assumption].
  destruct Hh' as [Hhk' _ Hhs' _]. constructor; try assumption.
  - rewrite keys_set_in; [assumption|]. eapply get_Some_in_keys; eassumption.
  - apply Forall_set; [assumption|]. apply (Forall_get _ _ _ _ Hfs Hf).
Qed.

Lemma credit_Forall (P : nat * Household.t -> Prop) (i : nat) (w : Q)
    (d d' : dict Household.t) :
  (forall k hh, P (k, hh) ->
     P (k, Household.set_balance hh (Household.balance hh + w))) ->
  Forall P d -> Firm.credit i w d = Some d' -> Forall P d'.
Proof.
  intros HP Hd H. apply credit_inv in H. destruct H as (hh & Hg & ->).
  apply Forall_set; [assumption|]. apply HP.
  apply (Forall_get _ _ _ _ Hd Hg).
Qed.

Lemma distribute_wages_Forall (P : nat * Household.t -> Prop) (w : Q)
    (ids : list nat) :
  (forall k hh, P (k, hh) ->
     P (k, Household.set_balance hh (Household.balance hh + w))) ->
  forall d d',
    Forall P d -> Firm.distribute_wages ids w d = Some d' -> Forall P d'.
Proof.
  intros HP. induction ids as [|i ids IH]; simpl; intros d d' Hd.
  - now intros [= <-].
  - destruct (Firm.credit i w d) as [d1|] eqn:C; simpl bind; [|discriminate].
    apply IH. eapply credit_Forall; eassumption.
Qed.

Lemma pay_workers_Forall (P : nat * Household.t -> Prop) (f f' : Firm.t)
    (d d' : dict Household.t) :
  (forall w k hh,
     w == (Firm.balance f + Firm.revenue_this_tick f) * Firm.wage_rate f /
          inject_Z (Z.of_nat (length (Firm.worker_ids f))) ->
     Firm.worker_ids f <> [] ->
     P (k, hh) ->
     P (k, Household.set_balance hh (Household.balance hh + w))) ->
  Forall P d -> Firm.pay_workers f d = Some (f', d') -> Forall P d'.
Proof.
  intros HP Hd H. apply pay_workers_inv in H.
  destruct H as [(_ & _ & ->)|(Hne & _ & D)]; [assumption|].
  eapply distribute_wages_Forall; [|eassumption|eassumption].
  intros k hh. apply HP; [reflexivity|assumption].
Qed.

Lemma pay_workers_firm_shape (k : nat) (f f' : Firm.t)
    (d d' : dict Household.t) :
  Firm.pay_workers f d = Some (f', d') ->
  firm_shape (k, f) -> firm_shape (k, f').
Proof.
  intros H. apply pay_workers_inv in H.
  destruct H as [(_ & -> & _)|(_ & -> & _)]; trivial.
Qed.

Lemma payday_shape (k : nat) (st st' : TickState) :
  tick_shape st -> payday k st = Some st' -> tick_shape st'.
Proof.
  intros [Hhk Hfk Hhs Hfs] H. apply payday_inv in H.
  destruct H as (f & f' & Hf & Hp & Ef & _ & _).
  constructor.
  - rewrite (pay_workers_keys _ _ _ _ Hp). assumption.
  - rewrite Ef, keys_set_in; [assumption|].
    eapply get_Some_in_keys; eassumption.
  - eapply pay_workers_Forall; [|exact Hhs|exact Hp].
    intros w k' hh _ _ Hs. exact Hs.
  - rewrite Ef. apply Forall_set; [assumption|].
    eapply pay_workers_firm_shape; [eassumption|].
    apply (Forall_get _ _ _ _ Hfs Hf).
Qed.

(** *** Solvency *)

Hypothesis p_pos : 0 < p cfg.

Lemma shop_firms_solvent (k : nat) (st st' : TickState) :
  tick_firms_solvent st -> shop fkeys k st = Some st' ->
  tick_firms_solvent st'.
Proof.
  intros [Hsh Hso] H. split; [eapply shop_shape; eassumption|].
  apply shop_inv in H.
  destruct H as (hh & fk & f & q & hh' & _ & _ & Hf & _ & _ & Hcase).
  destruct Hcase as [(Hq & -> & _)|(_ & -> & _)]; [|assumption].
  apply Forall_set; [assumption|].
  pose proof (Forall_get _ _ _ _ Hso Hf) as [Hb Hr].
  pose proof (Forall_get _ _ _ _ (sh_firms _ _ Hsh) Hf) as (_ & Hprice & _).
  simpl in *. split; [assumption|]. rewrite Hprice.
  assert (0 < inject_Z q)
    by (change 0 with (inject_Z 0); now rewrite <- Zlt_Qlt).
  assert (0 <= inject_Z q * p cfg) by (apply Qmult_le_0_compat; lra).
  simpl. lra.
Qed.

Lemma shop_solvent (k : nat) (st st' : TickState) :
  tick_solvent st -> shop fkeys k st = Some st' -> tick_solvent st'.
Proof.
  intros [Hf Hh] H. split; [eapply shop_firms_solvent; eassumption|].
  destruct Hf as [Hsh _]. apply shop_inv in H.
  destruct H as (hh & fk & f & q & hh' & Hg & _ & Hf & Hp & -> & _).
  apply Forall_set; [assumption|].
  pose proof (Forall_get _ _ _ _ (sh_firms _ _ Hsh) Hf) as (_ & Hprice & _).
  simpl in Hprice. rewrite Hprice in Hp.
  eapply place_order_and_pay_balance_nonneg; [|exact p_pos|exact Hp].
  apply (Forall_get _ _ _ _ Hh Hg).
Qed.

Hypothesis wage_rate_le_1 : wage_rate cfg <= 1.

Lemma payday_firms_solvent (k : nat) (st st' : TickState) :
  tick_firms_solvent st -> payday k st = Some st' -> tick_firms_solvent st'.
Proof.
  intros [Hsh Hso] H. split; [eapply payday_shape; eassumption|].
  apply payday_inv in H. destruct H as (f & f' & Hf & Hp & -> & _ & _).
  apply Forall_set; [assumption|].
  pose proof (Forall_get _ _ _ _ Hso Hf) as [Hb Hr].
  pose proof (Forall_get _ _ _ _ (sh_firms _ _ Hsh) Hf) as (_ & _ & Hw & _).
  simpl in *. apply pay_workers_inv in Hp.
  destruct Hp as [(_ & -> & _)|(_ & -> & _)]; split; simpl; try lra.
  rewrite Hw.
  assert (0 <= (Firm.balance f + Firm.revenue_this_tick f) * (1 - wage_rate cfg))
    by (apply Qmult_le_0_compat; lra).
  lra.
Qed.

Hypothesis wage_rate_nonneg : 0 <= wage_rate cfg.

Lemma payday_solvent (k : nat) (st st' : TickState) :
  tick_solvent st -> payday k st = Some st' -> tick_solvent st'.
Proof.
  intros [Hfs Hh] H. split; [eapply payday_firms_solvent; eassumption|].
  destruct Hfs as [Hsh Hso]. apply payday_inv in H.
  destruct H as (f & f' & Hf & Hp & _ & _ & _).
  pose proof (Forall_get _ _ _ _ Hso Hf) as [Hb Hr].
  pose proof (Forall_get _ _ _ _ (sh_firms _ _ Hsh) Hf) as (_ & _ & Hw & _).
  simpl in *.
  eapply pay_workers_Forall; [|exact Hh|exact Hp].
  intros w k' hh Ew Hne Hs. unfold household_solvent in *. simpl in *.
  assert (0 <= w); [|lra].
  rewrite Ew, Hw. apply Qle_shift_div_l.
  - destruct (Firm.worker_ids f) as [|i ids]; [congruence|].
    unfold Qlt. cbn [Qnum Qden inject_Z length]. lia.
  - rewrite Qmult_0_l. apply Qmult_le_0_compat; lra.
Qed.

End Invariants.

(** ** Progress and conservation in one round *)

Definition tick_money (st : TickState) : Q :=
  household_money (ts_households st) + firm_money (ts_firms st).

Section Rounds.

Variable cfg : Config.
Variable hkeys fkeys : list nat.

Lemma payday_total (k : nat) (st : TickState) :
  tick_shape cfg hkeys fkeys st -> In k fkeys ->
  exists st', payday k st = Some st'.
Proof.
  intros [Hhk Hfk _ Hfs] Hk. rewrite <- Hfk in Hk.
  destruct (in_keys_get _ _ Hk) as [f Hf].
  pose proof (Forall_get _ _ _ _ Hfs Hf) as (_ & _ & _ & Hin).
  simpl in Hin. rewrite <- Hhk in Hin.
  destruct (pay_workers_total f _ Hin) as (f' & hs' & Hp).
  unfold payday. rewrite Hf. simpl bind. rewrite Hp. simpl bind. eauto.
Qed.

Lemma payday_money (k : nat) (st st' : TickState) :
  payday k st = Some st' -> tick_money st' == tick_money st.
Proof.
  intros H. apply payday_inv in H.
  destruct H as (f & f' & Hf & Hp & Ef & _ & _).
  unfold tick_money, firm_money. rewrite Ef.
  rewrite (measure_set_present _ _ _ _ _ Hf).
  pose proof (pay_workers_money _ _ _ _ Hp). lra.
Qed.

Hypothesis p_pos : 0 < p cfg.

Lemma shop_total (k : nat) (st : TickState) :
  tick_shape cfg hkeys fkeys st -> fkeys <> [] -> In k hkeys ->
  exists st', shop fkeys k st = Some st'.
Proof.
  intros [Hhk Hfk _ Hfs] Hne Hk. rewrite <- Hhk in Hk.
  destruct (in_keys_get _ _ Hk) as [hh Hh].
  destruct (random_choice_total fkeys (ts_rng st) Hne) as [fk Hc].
  pose proof (random_choice_inv _ _ _ _ Hc) as (_ & Hin & _).
  rewrite <- Hfk in Hin. destruct (in_keys_get _ _ Hin) as [f Hf].
  pose proof (Forall_get _ _ _ _ Hfs Hf) as (_ & Hprice & _).
  simpl in Hprice.
  destruct (place_order_and_pay_total hh (Firm.price f)) as (q & hh' & Hp);
    [now rewrite Hprice|].
  unfold shop. rewrite Hh. simpl bind. rewrite Hc. simpl bind.
  rewrite Hf. simpl bind. rewrite Hp. simpl bind.
  destruct (0 <? q)%Z; eauto.
Qed.

Hypothesis size_nonneg : (0 <= household_size cfg)%Z.

(** A purchase moves money from the household to the firm. *)
Lemma shop_money (k : nat) (st st' : TickState) :
  tick_solvent cfg hkeys fkeys st -> shop fkeys k st = Some st' ->
  tick_money st' == tick_money st.
Proof.
  intros [[Hsh _] Hhs] H. apply shop_inv in H.
  destruct H as (hh & fk & f & q & hh' & Hg & _ & Hf & Hp & Eh & Hcase).
  pose proof (Forall_get _ _ _ _ (sh_firms _ _ _ _ _ Hsh) Hf) as (_ & Hprice & _).
  pose proof (Forall_get _ _ _ _ (sh_households _ _ _ _ _ Hsh) Hg) as (_ & Hsize).
  pose proof (Forall_get _ _ _ _ Hhs Hg) as Hb.
  unfold household_solvent in Hb. simpl in Hprice, Hsize, Hb.
  assert (Hq : (0 <= q)%Z).
  { apply (place_order_and_pay_qty_nonneg hh (Firm.price f) q hh' Hb);
      [now rewrite Hsize|now rewrite Hprice|exact Hp]. }
  apply place_order_and_pay_inv in Hp. destruct Hp as [-> _].
  unfold tick_money, household_money, firm_money. rewrite Eh.
  rewrite (measure_set_present _ _ _ _ _ Hg). simpl Household.balance.
  destruct Hcase as [(_ & -> & _)|(Hle & -> & _)].
  - rewrite (measure_set_present _ _ _ _ _ Hf).
    unfold firm_holdings. simpl. ring.
  - assert (q = 0%Z) as -> by lia. ring.
Qed.

End Rounds.

(** ** The tick *)

Definition start (self : Simulation) (g : Rng) : TickState :=
  mkTickState (households self) (firms self) [] g.

Definition finish (self : Simulation) (st : TickState)
    : list Transaction * Simulation * Rng :=
  (ts_transactions st,
   mkSimulation (config self) (ts_households st) (ts_firms st),
   ts_rng st).

(** The tick is the shopping phase followed by the payday phase. *)
Lemma run_one_tick_phases (s : Simulation) (g : Rng) r :
  run_one_tick s g = Some r ->
  exists mid fin,
    shopping_phase (keys (firms s)) (keys (households s)) (start s g) = Some mid /\
    payday_phase (keys (ts_firms mid)) mid = Some fin /\
    r = finish s fin.
Proof.
  unfold run_one_tick. fold (start s g).
  destruct (shopping_phase _ _ (start s g)) as [mid|]; simpl bind; [|discriminate].
  destruct (payday_phase _ mid) as [fin|] eqn:Hfin; simpl bind; [|discriminate].
  intros [= <-]. exists mid, fin. repeat split. exact Hfin.
Qed.

Lemma run_one_tick_compose (s : Simulation) (g : Rng) (mid fin : TickState) :
  shopping_phase (keys (firms s)) (keys (households s)) (start s g) = Some mid ->
  payday_phase (keys (ts_firms mid)) mid = Some fin ->
  run_one_tick s g = Some (finish s fin).
Proof.
  intros H1 H2. unfold run_one_tick. fold (start s g).
  rewrite H1. simpl bind. rewrite H2. reflexivity.
Qed.

(** ** Reachable worlds *)

Inductive reachable (cfg : Config) : Simulation -> Prop :=
| reachable_setup (g : Rng) (s : Simulation) (g' : Rng) :
    _setup_world cfg g = Some (s, g') -> reachable cfg s
| reachable_tick (s : Simulation) (g : Rng) (txs : list Transaction)
    (s' : Simulation) (g' : Rng) :
    reachable cfg s -> run_one_tick s g = Some (txs, s', g') ->
    reachable cfg s'.

Section World.

Variable cfg : Config.

Let hkeys := py_range (N_H cfg).
Let fkeys := py_range (N_F cfg).

Record world_shape (s : Simulation) : Prop := {
  ws_config : config s = cfg;
  ws_shape : shape cfg hkeys fkeys (households s) (firms s);
  ws_firms_exist : hkeys <> [] -> fkeys <> []
}.

Definition world_firms_solvent (s : Simulation) : Prop :=
  world_shape s /\ Forall firm_solvent (firms s).

Definition world_solvent (s : Simulation) : Prop :=
  world_firms_solvent s /\ Forall household_solvent (households s).

(** A property of the loop state kept by both kinds of round is kept by
    the tick. *)
Lemma run_one_tick_inv (I : TickState -> Prop) (s : Simulation) (g : Rng)
    txs s' g' :
  (forall k st st', I st -> shop (keys (firms s)) k st = Some st' -> I st') ->
  (forall k st st', I st -> payday k st = Some st' -> I st') ->
  I (start s g) ->
  run_one_tick s g = Some (txs, s', g') ->
  I (mkTickState (households s') (firms s') txs g').
Proof.
  intros Hshop Hpay H0 H. apply run_one_tick_phases in H.
  destruct H as (mid & fin & H1 & H2 & E).
  unfold finish in E. injection E as -> -> ->. simpl.
  assert (Hmid : I mid).
  { eapply (for_each_inv (shop (keys (firms s))) I); [|exact H0|exact H1].
    intros k st st' _. apply Hshop. }
  assert (Hfin : I fin).
  { eapply (for_each_inv payday I); [|exact Hmid|exact H2].
    intros k st st' _. apply Hpay. }
  destruct fin. exact Hfin.
Qed.

Lemma setup_world_shape (g : Rng) (s : Simulation) (g' : Rng) :
  _setup_world cfg g = Some (s, g') ->
  world_shape s /\
  Forall (fun kf => Firm.balance (snd kf) = 0 /\
                    Firm.revenue_this_tick (snd kf) = 0) (firms s) /\
  Forall (fun kh => Household.balance (snd kh) =
                      M0 cfg / inject_Z (N_H cfg)) (households s).
Proof.
  intros H. pose proof (setup_world_inv _ _ _ _ H) as (Hc & _ & Hinv).
  destruct Hinv as [Hhk Hfk Hhs Hfs Hemp].
  split; [constructor; [assumption|constructor; try assumption|]|split].
  - eapply Forall_impl; [|exact Hhs]. intros kh (H1 & _ & H3 & _).
    split; assumption.
  - rewrite Forall_forall. intros [k f] Hin.
    rewrite Forall_forall in Hfs.
    destruct (Hfs _ Hin) as (F1 & F2 & F3 & _). repeat split; try assumption.
    intros i Hi. simpl in *.
    assert (Hg : get k (firms s) = Some f).
    { apply in_get; [|assumption]. unfold wf. rewrite Hfk. apply py_range_NoDup. }
    apply (Hemp i k f Hg) in Hi. destruct Hi as (h & Gh & _).
    unfold hkeys. rewrite <- Hhk. eapply get_Some_in_keys; eassumption.
  - intros Hne. unfold _setup_world in H.
    destruct (py_div (M0 cfg) (inject_Z (N_H cfg))); simpl bind in H; [|discriminate].
    subst hkeys fkeys. intros Hf.
    rewrite create_firms_app in H by (simpl; apply py_range_NoDup).
    rewrite Hf in H. simpl in H.
    destruct (py_range (N_H cfg)); [congruence|]. discriminate.
  - eapply Forall_impl; [|exact Hfs]. intros kf (_ & _ & _ & F4 & F5 & _).
    split; assumption.
  - eapply Forall_impl; [|exact Hhs]. intros kh (_ & H2 & _). assumption.
Qed.

Lemma tick_shape_start (s : Simulation) (g : Rng) :
  world_shape s -> tick_shape cfg hkeys fkeys (start s g).
Proof. intros [_ H _]. exact H. Qed.

Lemma firm_list_keys (s : Simulation) :
  world_shape s -> keys (firms s) = fkeys.
Proof. intros [_ [_ H _ _] _]. exact H. Qed.

Lemma run_one_tick_shape (s : Simulation) (g : Rng) txs s' g' :
  world_shape s -> run_one_tick s g = Some (txs, s', g') -> world_shape s'.
Proof.
  intros Hs H.
  assert (Hc : config s' = config s).
  { apply run_one_tick_phases in H. destruct H as (? & ? & _ & _ & E).
    unfold finish in E. now injection E as _ -> _. }
  apply (run_one_tick_inv (tick_shape cfg hkeys fkeys)) in H.
  - destruct Hs as [Hcfg _ Hex]. constructor; [congruence|exact H|exact Hex].
  - rewrite (firm_list_keys s Hs). intros k st st'. apply shop_shape.
  - intros k st st'. apply payday_shape.
  - now apply tick_shape_start.
Qed.

Lemma reachable_shape (s : Simulation) : reachable cfg s -> world_shape s.
Proof.
  induction 1 as [g s g' H|s g txs s' g' _ IH H].
  - apply (setup_world_shape _ _ _ H).
  - eapply run_one_tick_shape; eassumption.
Qed.

End World.

Section Solvency.

Variable cfg : Config.

Let hkeys := py_range (N_H cfg).
Let fkeys := py_range (N_F cfg).

Hypothesis p_pos : 0 < p cfg.

(** On a world of the right shape the tick raises no exception. *)
Lemma run_one_tick_total (s : Simulation) (g : Rng) :
  world_shape cfg s -> exists r, run_one_tick s g = Some r.
Proof.
  intros Hs. pose proof (firm_list_keys cfg s Hs) as Hfl.
  pose proof (tick_shape_start cfg s g Hs) as H0.
  destruct (for_each_total (shop fkeys) (tick_shape cfg hkeys fkeys)
              (keys (households s))) with (st := start s g)
    as [mid Hmid]; [| |exact H0|].
  - intros k st st' _. apply shop_shape.
  - intros k st Hk Hst. apply (shop_total cfg hkeys fkeys p_pos k st Hst).
    + apply (ws_firms_exist cfg s Hs). intros E.
      rewrite (sh_hkeys _ _ _ _ _ (ws_shape cfg s Hs)), E in Hk.
      destruct Hk.
    + now rewrite (sh_hkeys _ _ _ _ _ (ws_shape cfg s Hs)) in Hk.
  - assert (Hsm : tick_shape cfg hkeys fkeys mid).
    { eapply (for_each_inv (shop fkeys)); [|exact H0|exact Hmid].
      intros k st st' _. apply shop_shape. }
    destruct (for_each_total payday (tick_shape cfg hkeys fkeys)
                (keys (ts_firms mid))) with (st := mid)
      as [fin Hfin]; [| |exact Hsm|].
    + intros k st st' _. apply payday_shape.
    + intros k st Hk Hst. apply (payday_total cfg hkeys fkeys k st Hst).
      now rewrite (sh_fkeys _ _ _ _ _ Hsm) in Hk.
    + exists (finish s fin). apply (run_one_tick_compose s g mid fin).
      * rewrite Hfl. exact Hmid.
      * exact Hfin.
Qed.

Hypothesis wage_rate_le_1 : wage_rate cfg <= 1.

Lemma run_one_tick_firms_solvent (s : Simulation) (g : Rng) txs s' g' :
  world_firms_solvent cfg s -> run_one_tick s g = Some (txs, s', g') ->
  world_firms_solvent cfg s'.
Proof.
  intros [Hs Hf] H.
  split; [eapply run_one_tick_shape; eassumption|].
  apply (run_one_tick_inv (tick_firms_solvent cfg hkeys fkeys)) in H.
  - apply H.
  - rewrite (firm_list_keys cfg s Hs). intros k st st'.
    now apply shop_firms_solvent.
  - intros k st st'. now apply payday_firms_solvent.
  - split; [now apply tick_shape_start|exact Hf].
Qed.

Lemma reachable_firms_solvent (s : Simulation) :
  reachable cfg s -> world_firms_solvent cfg s.
Proof.
  induction 1 as [g s g' H|s g txs s' g' _ IH H].
  - apply setup_world_shape in H. destruct H as (Hs & Hf & _).
    split; [assumption|]. eapply Forall_impl; [|exact Hf].
    intros kf [Hb Hr]. unfold firm_solvent. rewrite Hb, Hr. split; lra.
  - eapply run_one_tick_firms_solvent; eassumption.
Qed.

Hypothesis wage_rate_nonneg : 0 <= wage_rate cfg.

Lemma run_one_tick_solvent (s : Simulation) (g : Rng) txs s' g' :
  world_solvent cfg s -> run_one_tick s g = Some (txs, s', g') ->
  world_solvent cfg s'.
Proof.
  intros [[Hs Hf] Hh] H.
  split; [eapply run_one_tick_firms_solvent; [split|]; eassumption|].
  apply (run_one_tick_inv (tick_solvent cfg hkeys fkeys)) in H.
  - apply H.
  - rewrite (firm_list_keys cfg s Hs). intros k st st'.
    now apply shop_solvent.
  - intros k st st'. now apply payday_solvent.
  - split; [split; [now apply tick_shape_start|exact Hf]|exact Hh].
Qed.

Lemma reachable_solvent (s : Simulation) :
  (0 < N_H cfg)%Z -> 0 <= M0 cfg -> reachable cfg s -> world_solvent cfg s.
Proof.
  intros HN HM. induction 1 as [g s g' H|s g txs s' g' Hr IH H].
  - split; [apply reachable_firms_solvent; econstructor; eassumption|].
    apply setup_world_shape in H. destruct H as (_ & _ & Hh).
    eapply Forall_impl; [|exact Hh].
    intros kh Hb. unfold household_solvent. rewrite Hb.
    apply Qle_shift_div_l; [|lra].
    change 0 with (inject_Z 0). now rewrite <- Zlt_Qlt.
  - eapply run_one_tick_solvent; eassumption.
Qed.

Hypothesis size_nonneg : (0 <= household_size cfg)%Z.

(** Neither phase of the tick makes or destroys money. *)
Lemma run_one_tick_money (s : Simulation) (g : Rng) txs s' g' :
  world_solvent cfg s -> run_one_tick s g = Some (txs, s', g') ->
  total_money s' == total_money s.
Proof.
  intros [[Hs Hf] Hh] H.
  apply (run_one_tick_inv
           (fun st => tick_solvent cfg hkeys fkeys st /\
                      tick_money st == total_money s)) in H.
  - apply H.
  - rewrite (firm_list_keys cfg s Hs). intros k st st' [Hst Hm] Hk. split.
    + eapply shop_solvent; eassumption.
    + rewrite <- Hm. eapply shop_money; eassumption.
  - intros k st st' [Hst Hm] Hk. split.
    + eapply payday_solvent; eassumption.
    + rewrite <- Hm. eapply payday_money; eassumption.
  - split; [|reflexivity].
    split; [split; [now apply tick_shape_start|exact Hf]|exact Hh].
Qed.

End Solvency.

(** Conservation fails without a condition on [M0] and on
    [household_size]: with [M0 = -25] the only household holds -25, buys
    [int(-2.5) = -2] units and is left with -5, and the firm records no sale;
    with [household_size = -1] a household holding 100 "buys" -1 unit and
    is left with 110. *)
Lemma money_not_conserved :
  (let cfg := mkConfig 1 1 10 (1 # 2) (-25) 1 in
   (0 < N_F cfg)%Z /\ (0 < N_H cfg)%Z /\ 0 < p cfg /\
   0 <= wage_rate cfg /\ wage_rate cfg <= 1 /\
   exists s g txs s' g',
     reachable cfg s /\
     run_one_tick s g = Some (txs, s', g') /\
     total_money s == -25 /\ total_money s' == -5 /\
     ~ total_money s' == total_money s) /\
  (let cfg := mkConfig 1 1 10 (1 # 2) 100 (-1) in
   (0 < N_F cfg)%Z /\ (0 < N_H cfg)%Z /\ 0 < p cfg /\
   0 <= wage_rate cfg /\ wage_rate cfg <= 1 /\
   exists s g txs s' g',
     reachable cfg s /\
     run_one_tick s g = Some (txs, s', g') /\
     total_money s == 100 /\ total_money s' == 110 /\
     ~ total_money s' == total_money s).
Proof.
  split; cbv zeta; repeat (split; [reflexivity || discriminate|]).
  - eexists. exists (mkRng (fun n => n) 1). do 3 eexists. split.
    + apply reachable_setup with (g := mkRng (fun n => n) 0) (g' := mkRng (fun n => n) 1).
      reflexivity.
    + split; [reflexivity|]. split; [reflexivity|]. split; [reflexivity|].
      discriminate.
  - eexists. exists (mkRng (fun n => n) 1). do 3 eexists. split.
    + apply reachable_setup with (g := mkRng (fun n => n) 0) (g' := mkRng (fun n => n) 1).
      reflexivity.
    + split; [reflexivity|]. split; [reflexivity|]. split; [reflexivity|].
      discriminate.
Qed.

(** C1, amended. For a configuration with [N_F > 0], [N_H > 0], [p > 0],
    [wage_rate] in [[0, 1]], [M0 >= 0] and [household_size >= 0], and a
    reachable world, [run_one_tick] returns and leaves the sum of the
    household balances, the firm balances and the pending revenues as it
    was, in exact arithmetic. *)
Theorem money_conserved (cfg : Config) (s : Simulation) (g : Rng) :
  (0 < N_F cfg)%Z -> (0 < N_H cfg)%Z -> 0 < p cfg ->
  0 <= wage_rate cfg -> wage_rate cfg <= 1 ->
  0 <= M0 cfg -> (0 <= household_size cfg)%Z ->
  reachable cfg s ->
  exists txs s' g',
    run_one_tick s g = Some (txs, s', g') /\
    total_money s' == total_money s.
Proof.
  intros _ HH Hp Hw0 Hw1 HM Hs Hr.
  destruct (run_one_tick_total cfg Hp s g (reachable_shape cfg s Hr))
    as [[[txs s'] g'] H].
  exists txs, s', g'. split; [assumption|].
  apply (run_one_tick_money cfg Hp Hw1 Hw0 Hs s g txs s' g'); [|assumption].
  now apply reachable_solvent.
Qed.

Lemma money_conserved_witness :
  let cfg := mkConfig 2 2 10 (1 # 2) 100 1 in
  exists s txs s' g',
    reachable cfg s /\
    run_one_tick s (mkRng (fun n => n) 2) = Some (txs, s', g') /\
    total_money s' == total_money s.
Proof.
  intros cfg.
  destruct (setup_world_total cfg (mkRng (fun n => n) 0)) as (s & g1 & Hs);
    [reflexivity|reflexivity|].
  assert (Hr : reachable cfg s) by (econstructor; eassumption).
  destruct (money_conserved cfg s (mkRng (fun n => n) 2))
    as (txs & s' & g' & H & Hm);
    try reflexivity; try discriminate; try assumption.
  exists s, txs, s', g'. auto.
Defined.

(** C10. For a configuration with [p > 0] and [wage_rate] in [[0, 1]], the
    balance of every firm is non-negative in every reachable world: it
    starts at 0, the recorded sales are non-negative, and payday leaves
    [(balance + revenue) * (1 - wage_rate)]. *)
Theorem firm_balance_nonneg (cfg : Config) (s : Simulation) :
  0 < p cfg -> 0 <= wage_rate cfg -> wage_rate cfg <= 1 ->
  reachable cfg s ->
  forall k f, In (k, f) (firms s) ->
    0 <= Firm.balance f /\ 0 <= Firm.revenue_this_tick f.
Proof.
  intros Hp _ Hw Hr k f Hin.
  destruct (reachable_firms_solvent cfg Hp Hw s Hr) as [_ Hf].
  rewrite Forall_forall in Hf. apply (Hf _ Hin).
Qed.

Lemma firm_balance_nonneg_witness :
  let cfg := mkConfig 2 3 10 (1 # 4) 100 2 in
  exists (s1 : Simulation) (g2 : Rng) (txs : list Transaction)
      (s2 : Simulation) (g3 : Rng) (f0 f1 : Firm.t),
    reachable cfg s1 /\
    run_one_tick s1 g2 = Some (txs, s2, g3) /\
    length txs = 3%nat /\
    get 0%nat (firms s2) = Some f0 /\ get 1%nat (firms s2) = Some f1 /\
    Firm.balance f0 == 105 # 4 /\ Firm.balance f1 == 75 # 2 /\
    0 <= Firm.balance f0 /\ 0 <= Firm.revenue_this_tick f0 /\
    0 <= Firm.balance f1 /\ 0 <= Firm.revenue_this_tick f1.
Proof.
  intros cfg.
  pose (g0 := mkRng (fun n => n) 0).
  destruct (_setup_world cfg g0) as [[s0 g1]|] eqn:H0; [|discriminate].
  destruct (run_one_tick s0 g1) as [[[txs1 s1] g2]|] eqn:H1;
    [|vm_compute in H0; injection H0 as <- <-; discriminate].
  destruct (run_one_tick s1 g2) as [[[txs2 s2] g3]|] eqn:H2;
    [|vm_compute in H0; injection H0 as <- <-;
      vm_compute in H1; injection H1 as <- <- <-; discriminate].
  assert (Hr1 : reachable cfg s1).
  { apply (reachable_tick cfg s0 g1 txs1 s1 g2); [|exact H1].
    apply (reachable_setup cfg g0 s0 g1 H0). }
  assert (Hr2 : reachable cfg s2)
    by (apply (reachable_tick cfg s1 g2 txs2 s2 g3 Hr1 H2)).
  pose proof (firm_balance_nonneg cfg s2 ltac:(reflexivity)
                ltac:(discriminate) ltac:(discriminate) Hr2) as Hall.
  exists s1, g2, txs2, s2, g3.
  vm_compute in H0. injection H0 as <- <-.
  vm_compute in H1. injection H1 as <- <- <-.
  pose proof H2 as H2'.
  vm_compute in H2'. injection H2' as <- <- <-.
  do 2 eexists. split; [exact Hr1|]. split; [exact H2|].
  split; [reflexivity|]. split; [reflexivity|]. split; [reflexivity|].
  split; [reflexivity|]. split; [reflexivity|].
  pose proof (Hall 0%nat _ (or_introl eq_refl)) as [Hb0 Hv0].
  pose proof (Hall 1%nat _ (or_intror (or_introl eq_refl))) as [Hb1 Hv1].
  repeat split; assumption.
Defined.

(** ** The shopping phase, told from the world the tick starts in *)

(** The firm key the [i]-th coming call of [random.choice(firm_list)]
    returns. *)
Definition chosen (firm_list : list nat) (g : Rng) (i : nat) : option nat :=
  nth_error firm_list (draw g i mod length firm_list).

(** The money the records [txs] send to the firm [firm_id]. *)
Definition paid_to (firm_id : nat) (txs : list Transaction) : Q :=
  sumQ (map amount (filter (fun t => Nat.eqb (to_id t) firm_id) txs)).

Lemma paid_to_app (firm_id : nat) (l1 l2 : list Transaction) :
  paid_to firm_id (l1 ++ l2) == paid_to firm_id l1 + paid_to firm_id l2.
Proof.
  unfold paid_to. rewrite filter_app, map_app.
  induction (map amount (filter _ l1)) as [|x l IH]; simpl.
  - ring.
  - rewrite IH. ring.
Qed.

Section Shopping.

(** The households, the firms, the firm list and the generator at the
    start of the tick. *)
Variable hs0 : dict Household.t.
Variable fs0 : dict Firm.t.
Variable fl : list nat.
Variable g0 : Rng.

(** The purchase of the household under key [k], the [i]-th of the loop,
    as decided on the balances and prices the tick started with: the
    quantity, the household after the debit, the key of the chosen firm
    and the firm. *)
Definition purchase (i k : nat) : option (Z * Household.t * nat * Firm.t) :=
  hh <- get k hs0 ;;
  fk <- chosen fl g0 i ;;
  f <- get fk fs0 ;;
  '(q, hh') <- Household.place_order_and_pay hh (Firm.price f) ;;
  Some (q, hh', fk, f).

(** One record when the purchased quantity is positive, none otherwise. *)
Definition record_of (i k : nat) : list Transaction :=
  match purchase i k with
  | Some (q, hh', _, f) => if (0 <? q)%Z then [receipt hh' f q] else []
  | None => []
  end.

(** The records of the households [ks], in their order, the first of them
    being the [i]-th of the loop. *)
Fixpoint records_from (i : nat) (ks : list nat) : list Transaction :=
  match ks with
  | [] => []
  | k :: rest => record_of i k ++ records_from (S i) rest
  end.

(** What a purchase reads of a firm. *)
Definition offer (f : Firm.t) : nat * Q := (Firm.id f, Firm.price f).

(** The loop state before the [i]-th round, with the households [ks] still
    to come: they are as the tick found them, and so are the offers. *)
Record untouched (i : nat) (ks : list nat) (st : TickState) : Prop := {
  un_households :
    forall k, In k ks -> get k (ts_households st) = get k hs0;
  un_firms :
    forall fk,
      option_map offer (get fk (ts_firms st)) = option_map offer (get fk fs0);
  un_rng : ts_rng st = mkRng (stream g0) (pos g0 + i)
}.

Hypothesis firm_ids_are_keys :
  forall fk f, get fk fs0 = Some f -> Firm.id f = fk.

Lemma shop_round (i k : nat) (ks : list nat) (st st1 : TickState) :
  untouched i (k :: ks) st -> ~ In k ks -> shop fl k st = Some st1 ->
  untouched (S i) ks st1 /\
  (exists q hh' fk f,
     purchase i k = Some (q, hh', fk, f) /\
     get k (ts_households st1) = Some hh') /\
  ts_transactions st1 = ts_transactions st ++ record_of i k /\
  (forall k', k' <> k ->
     get k' (ts_households st1) = get k' (ts_households st)) /\
  (forall fk f,
     get fk (ts_firms st) = Some f ->
     exists f',
       get fk (ts_firms st1) = Some f' /\
       Firm.revenue_this_tick f' ==
         Firm.revenue_this_tick f + paid_to fk (record_of i k)).
Proof.
  intros [Uh Uf Ug] Hk H. apply shop_inv in H.
  destruct H as (hh & fk & f & q & hh' & Hg & Hc & Hf & Hp & Eh & Hcase).
  apply random_choice_inv in Hc. destruct Hc as (Hn & _ & Eg).
  rewrite Ug in Hn, Eg. unfold draw in Hn. simpl in Hn.
  rewrite Nat.add_0_r in Hn.
  assert (Hg0 : get k hs0 = Some hh).
  { rewrite <- (Uh k); [assumption|now left]. }
  pose proof (Uf fk) as Hof. rewrite Hf in Hof. simpl in Hof.
  destruct (get fk fs0) as [f0|] eqn:Hf0; [|discriminate].
  simpl in Hof. injection Hof as Hid Hprice.
  assert (Hpu : purchase i k = Some (q, hh', fk, f0)).
  { unfold purchase, chosen, draw. rewrite Hg0. simpl bind.
    rewrite Hn. simpl bind. rewrite Hf0. simpl bind.
    rewrite <- Hprice, Hp. reflexivity. }
  assert (Hrec : receipt hh' f0 q = receipt hh' f q).
  { unfold receipt. now rewrite Hid, Hprice. }
  assert (Hkey : Firm.id f = fk).
  { rewrite Hid. now apply firm_ids_are_keys. }
  split; [|split; [|split; [|split]]].
  - constructor.
    + intros k' Hk'. rewrite Eh, get_set_neq.
      * apply Uh. now right.
      * intros ->. contradiction.
    + intros fk'.
      destruct Hcase as [(_ & -> & _)|(_ & -> & _)]; [|apply Uf].
      destruct (Nat.eq_dec fk fk') as [<-|Hne].
      * rewrite get_set_eq, Hf0. simpl. unfold offer. simpl.
        now rewrite Hid, Hprice.
      * rewrite get_set_neq by assumption. apply Uf.
    + rewrite Eg. unfold next. simpl. now rewrite Nat.add_succ_r.
  - exists q, hh', fk, f0. split; [assumption|].
    rewrite Eh. apply get_set_eq.
  - unfold record_of. rewrite Hpu, Hrec.
    destruct Hcase as [(Hq & _ & ->)|(Hq & _ & ->)].
    + apply Z.ltb_lt in Hq. now rewrite Hq.
    + apply Z.ltb_ge in Hq. rewrite Hq. now rewrite app_nil_r.
  - intros k' Hne. rewrite Eh. apply get_set_neq. congruence.
  - intros fk' f' Hf'. unfold record_of. rewrite Hpu, Hrec.
    destruct Hcase as [(Hq & -> & _)|(Hq & -> & _)].
    + apply Z.ltb_lt in Hq. rewrite Hq.
      unfold paid_to. cbn [filter receipt to_id]. rewrite Hkey.
      destruct (Nat.eq_dec fk fk') as [<-|Hne].
      * rewrite get_set_eq. eexists. split; [reflexivity|].
        rewrite Nat.eqb_refl. simpl.
        assert (f' = f) as -> by congruence. ring.
      * rewrite get_set_neq by assumption. exists f'. split; [assumption|].
        destruct (Nat.eqb fk fk') eqn:E.
        -- apply Nat.eqb_eq in E. contradiction.
        -- simpl. ring.
    + apply Z.ltb_ge in Hq. rewrite Hq. exists f'. split; [assumption|].
      unfold paid_to. simpl. ring.
Qed.

Lemma shopping_rounds (ks : list nat) :
  forall (i : nat) (st st' : TickState),
    untouched i ks st -> NoDup ks -> shopping_phase fl ks st = Some st' ->
    ts_transactions st' = ts_transactions st ++ records_from i ks /\
    (forall j k,
       nth_error ks j = Some k ->
       exists q hh' fk f,
         purchase (i + j) k = Some (q, hh', fk, f) /\
         get k (ts_households st') = Some hh') /\
    (forall k',
       ~ In k' ks -> get k' (ts_households st') = get k' (ts_households st)) /\
    (forall fk f,
       get fk (ts_firms st) = Some f ->
       exists f',
         get fk (ts_firms st') = Some f' /\
         Firm.revenue_this_tick f' ==
           Firm.revenue_this_tick f + paid_to fk (records_from i ks)).
Proof.
  unfold shopping_phase.
  induction ks as [|k ks IH]; intros i st st' Hun Hnd; simpl.
  - intros [= <-]. split; [now rewrite app_nil_r|]. split; [|split].
    + intros [|j] k; discriminate.
    + reflexivity.
    + intros fk f Hf. exists f. split; [assumption|].
      unfold paid_to. simpl. ring.
  - destruct (shop fl k st) as [st1|] eqn:Hs; simpl bind; [|discriminate].
    intros Hl. inversion Hnd as [|? ? Hk Hnd']; subst.
    destruct (shop_round i k ks st st1 Hun Hk Hs)
      as (Hun1 & (q & hh' & fk & f & Hpu & Hg1) & Htx & Hoth & Hrev).
    destruct (IH (S i) st1 st' Hun1 Hnd' Hl) as (Htx' & Hnth & Hoth' & Hrev').
    split; [|split; [|split]].
    + rewrite Htx', Htx. now rewrite <- app_assoc.
    + intros [|j] k'; simpl.
      * intros [= <-]. rewrite Nat.add_0_r. exists q, hh', fk, f.
        split; [assumption|]. now rewrite (Hoth' k Hk).
      * intros Hj. rewrite Nat.add_succ_r. apply (Hnth j k' Hj).
    + intros k' Hk'. simpl in Hk'. rewrite Hoth'; [apply Hoth|]; intuition congruence.
    + intros fk' f0 Hf0.
      destruct (Hrev fk' f0 Hf0) as (f1 & Hf1 & Hr1).
      destruct (Hrev' fk' f1 Hf1) as (f' & Hf' & Hr').
      exists f'. split; [assumption|].
      rewrite Hr', Hr1, paid_to_app. ring.
Qed.

End Shopping.

(** Payday appends no record and draws no number. *)
Lemma payday_phase_transactions (ks : list nat) (st st' : TickState) :
  payday_phase ks st = Some st' ->
  ts_transactions st' = ts_transactions st /\ ts_rng st' = ts_rng st.
Proof.
  intros H.
  apply (for_each_inv payday
           (fun x => ts_transactions x = ts_transactions st /\
                     ts_rng x = ts_rng st) ks) with (st := st);
    [|split; reflexivity|exact H].
  intros k s1 s2 _ [E1 E2] Hp. apply payday_inv in Hp.
  destruct Hp as (f & f' & _ & _ & _ & -> & ->). auto.
Qed.

Lemma purchase_inv hs0 fs0 fl g0 (i k : nat) q hh' fk f :
  purchase hs0 fs0 fl g0 i k = Some (q, hh', fk, f) ->
  exists hh,
    get k hs0 = Some hh /\
    chosen fl g0 i = Some fk /\
    get fk fs0 = Some f /\
    Household.place_order_and_pay hh (Firm.price f) = Some (q, hh').
Proof.
  unfold purchase.
  destruct (get k hs0) as [hh|]; simpl bind; [|discriminate].
  destruct (chosen fl g0 i) as [fk0|]; simpl bind; [|discriminate].
  destruct (get fk0 fs0) as [f0|] eqn:Hf; simpl bind; [|discriminate].
  destruct (Household.place_order_and_pay hh (Firm.price f0)) as [[q0 h0]|] eqn:Hp;
    simpl bind; [|discriminate].
  intros [= <- <- <- <-]. exists hh. auto.
Qed.

(** Every record stands for a purchase of a positive quantity. *)
Lemma in_records_from hs0 fs0 fl g0 (t : Transaction) (ks : list nat) :
  forall i,
    In t (records_from hs0 fs0 fl g0 i ks) ->
    exists j k q hh' fk f,
      nth_error ks j = Some k /\
      purchase hs0 fs0 fl g0 (i + j) k = Some (q, hh', fk, f) /\
      (0 < q)%Z /\
      t = receipt hh' f q.
Proof.
  induction ks as [|k ks IH]; intros i; simpl; [tauto|].
  rewrite in_app_iff. intros [H|H].
  - unfold record_of in H.
    destruct (purchase hs0 fs0 fl g0 i k) as [[[[q hh'] fk] f]|] eqn:Hpu;
      [|destruct H].
    destruct (0 <? q)%Z eqn:Hq; [|destruct H].
    destruct H as [<-|[]]. apply Z.ltb_lt in Hq.
    exists 0%nat, k, q, hh', fk, f. rewrite Nat.add_0_r. auto.
  - destruct (IH _ H) as (j & k' & q & hh' & fk & f & Hn & Hpu & Hq & Ht).
    exists (S j), k', q, hh', fk, f. rewrite Nat.add_succ_r. auto.
Qed.

(** The two phases of a tick from a reachable world. *)
Lemma run_one_tick_reachable (cfg : Config) (s : Simulation) (g : Rng)
    txs s' g' :
  reachable cfg s -> run_one_tick s g = Some (txs, s', g') ->
  exists mid,
    shopping_phase (keys (firms s)) (keys (households s)) (start s g)
      = Some mid /\
    payday_phase (keys (ts_firms mid)) mid
      = Some (mkTickState (households s') (firms s') txs g') /\
    ts_transactions mid = txs /\
    txs = records_from (households s) (firms s) (keys (firms s)) g 0
            (keys (households s)) /\
    (forall i k,
       nth_error (keys (households s)) i = Some k ->
       exists q hh' fk f,
         purchase (households s) (firms s) (keys (firms s)) g i k
           = Some (q, hh', fk, f) /\
         get k (ts_households mid) = Some hh') /\
    (forall fk f,
       get fk (firms s) = Some f ->
       exists f',
         get fk (ts_firms mid) = Some f' /\
         Firm.revenue_this_tick f' ==
           Firm.revenue_this_tick f + paid_to fk txs).
Proof.
  intros Hr H. apply reachable_shape in Hr.
  destruct Hr as [_ [Hhk Hfk Hhs Hfs] _].
  apply run_one_tick_phases in H. destruct H as (mid & fin & H1 & H2 & E).
  unfold finish in E. injection E as -> -> ->.
  exists mid. split; [assumption|]. split; [now destruct fin|].
  destruct (payday_phase_transactions _ _ _ H2) as [Et _].
  destruct (shopping_rounds (households s) (firms s) (keys (firms s)) g)
    with (ks := keys (households s)) (i := 0%nat) (st := start s g) (st' := mid)
    as (Htx & Hnth & _ & Hrev).
  - intros fk f Hf. apply (Forall_get _ _ _ _ Hfs Hf).
  - constructor; try reflexivity. simpl. destruct g. simpl.
    now rewrite Nat.add_0_r.
  - rewrite Hhk. apply py_range_NoDup.
  - assumption.
  - simpl in Htx. rewrite Et, Htx.
    split; [reflexivity|]. split; [reflexivity|]. split; [exact Hnth|exact Hrev].
Qed.

(** C4. In a tick, the shopping loop over all households is over before
    any payday runs, and the purchase of each household is decided on the
    balance it had when the tick started: the household left by the
    shopping phase is the result of [place_order_and_pay] on the household
    of the world before the tick, so no wage of this tick's payday is in a
    balance read by this tick's shopping. *)
Theorem shopping_reads_balances_before_payday (cfg : Config) (s : Simulation)
    (g : Rng) txs s' g' :
  reachable cfg s -> run_one_tick s g = Some (txs, s', g') ->
  exists mid,
    shopping_phase (keys (firms s)) (keys (households s)) (start s g)
      = Some mid /\
    payday_phase (keys (ts_firms mid)) mid
      = Some (mkTickState (households s') (firms s') txs g') /\
    forall i k,
      nth_error (keys (households s)) i = Some k ->
      exists hh fk f q hh',
        get k (households s) = Some hh /\
        chosen (keys (firms s)) g i = Some fk /\
        get fk (firms s) = Some f /\
        Household.place_order_and_pay hh (Firm.price f) = Some (q, hh') /\
        get k (ts_households mid) = Some hh'.
Proof.
  intros Hr H.
  destruct (run_one_tick_reachable cfg s g txs s' g' Hr H)
    as (mid & H1 & H2 & _ & _ & Hnth & _).
  exists mid. split; [assumption|]. split; [assumption|].
  intros i k Hk. destruct (Hnth i k Hk) as (q & hh' & fk & f & Hpu & Hg).
  apply purchase_inv in Hpu. destruct Hpu as (hh & G1 & G2 & G3 & G4).
  exists hh, fk, f, q, hh'. auto.
Qed.

(** C9. The list a tick returns is the list of the shopping phase, payday
    appending nothing: in the order of the households, one record
    [{from_id, to_id, amount}] with [amount = quantity * price] for each
    household whose purchased quantity is positive and none for the
    others; the revenue of each firm grows by the amounts of the records
    sent to it; and at a positive price no record has amount zero. *)
Theorem run_one_tick_records (cfg : Config) (s : Simulation) (g : Rng)
    txs s' g' :
  reachable cfg s -> run_one_tick s g = Some (txs, s', g') ->
  txs = records_from (households s) (firms s) (keys (firms s)) g 0
          (keys (households s)) /\
  (exists mid,
     shopping_phase (keys (firms s)) (keys (households s)) (start s g)
       = Some mid /\
     ts_transactions mid = txs /\
     forall fk f,
       get fk (firms s) = Some f ->
       exists f',
         get fk (ts_firms mid) = Some f' /\
         Firm.revenue_this_tick f' ==
           Firm.revenue_this_tick f + paid_to fk txs) /\
  (forall t,
     In t txs ->
     exists hh' f q,
       (0 < q)%Z /\
       t = mkTransaction (Household.id hh') (Firm.id f)
             (inject_Z q * Firm.price f) /\
       (0 < p cfg -> 0 < amount t)).
Proof.
  intros Hr H.
  destruct (run_one_tick_reachable cfg s g txs s' g' Hr H)
    as (mid & H1 & _ & Et & Etx & _ & Hrev).
  split; [assumption|]. split.
  - exists mid. auto.
  - intros t Ht. rewrite Etx in Ht. apply in_records_from in Ht.
    destruct Ht as (j & k & q & hh' & fk & f & _ & Hpu & Hq & ->).
    exists hh', f, q. split; [assumption|]. split; [reflexivity|].
    intros Hp. simpl.
    apply purchase_inv in Hpu. destruct Hpu as (hh & _ & _ & Hf & _).
    apply reachable_shape in Hr. destruct Hr as [_ [_ _ _ Hfs] _].
    pose proof (Forall_get _ _ _ _ Hfs Hf) as (_ & Hprice & _).
    simpl in Hprice. rewrite Hprice.
    apply Qmult_lt_0_compat; [|assumption].
    change 0 with (inject_Z 0). now rewrite <- Zlt_Qlt.
Qed.

Lemma shopping_reads_balances_before_payday_witness :
  let cfg := mkConfig 2 2 10 (1 # 2) 100 1 in
  exists s g txs s' g' mid,
    reachable cfg s /\
    run_one_tick s g = Some (txs, s', g') /\
    shopping_phase (keys (firms s)) (keys (households s)) (start s g)
      = Some mid /\
    payday_phase (keys (ts_firms mid)) mid
      = Some (mkTickState (households s') (firms s') txs g').
Proof.
  intros cfg.
  destruct (setup_world_total cfg (mkRng (fun n => n) 0)) as (s & g1 & Hs);
    [reflexivity|reflexivity|].
  assert (Hr : reachable cfg s) by (econstructor; eassumption).
  destruct (run_one_tick_total cfg ltac:(reflexivity) s g1
              (reachable_shape cfg s Hr)) as [[[txs s'] g'] H].
  destruct (shopping_reads_balances_before_payday cfg s g1 txs s' g' Hr H)
    as (mid & H1 & H2 & _).
  exists s, g1, txs, s', g', mid. auto.
Defined.

Lemma run_one_tick_records_witness :
  let cfg := mkConfig 2 2 10 (1 # 2) 100 1 in
  exists s g txs s' g',
    reachable cfg s /\
    run_one_tick s g = Some (txs, s', g') /\
    txs = records_from (households s) (firms s) (keys (firms s)) g 0
            (keys (households s)).
Proof.
  intros cfg.
  destruct (setup_world_total cfg (mkRng (fun n => n) 0)) as (s & g1 & Hs);
    [reflexivity|reflexivity|].
  assert (Hr : reachable cfg s) by (econstructor; eassumption).
  destruct (run_one_tick_total cfg ltac:(reflexivity) s g1
              (reachable_shape cfg s Hr)) as [[[txs s'] g'] H].
  destruct (run_one_tick_records cfg s g1 txs s' g' Hr H) as (E & _).
  exists s, g1, txs, s', g'. auto.
Defined.

(** ** Two runs *)

(** A household with balance 50 buys one unit at price 10 and keeps 40. *)
Example purchase_affordable_run :
  Household.place_order_and_pay (Household.mk 0 50 1 (Some 0%nat)) 10
  = Some (1%Z, Household.mk 0 (50 - inject_Z 1 * 10) 1 (Some 0%nat)).
Proof. reflexivity. Qed.

(** A household with balance 7 buys nothing at price 10. *)
Example purchase_unaffordable_run :
  Household.place_order_and_pay (Household.mk 0 7 1 (Some 0%nat)) 10
  = Some (0%Z, Household.mk 0 (7 - inject_Z 0 * 10) 1 (Some 0%nat)).
Proof. reflexivity. Qed.

(** A firm with revenue 10, wage rate 1/2 and one worker pays 5 and keeps
    5. *)
Example payday_run :
  exists f' hh',
    Firm.pay_workers (Firm.mk 0 0 10 (1 # 2) [0%nat] 10)
      [(0%nat, Household.mk 0 40 1 (Some 0%nat))]
    = Some (f', [(0%nat, hh')]) /\
    Firm.balance f' == 5 /\ Household.balance hh' == 45.
Proof. do 2 eexists. split; [reflexivity|]. split; reflexivity. Qed.

(** * Further properties of the engine *)

(** ** Household: purchases at the edges *)

(** On a non-positive number, truncation is the ceiling. *)
Lemma py_int_ceiling (x : Q) : x <= 0 -> py_int x = Qceiling x.
Proof.
  intros H. unfold py_int, Qceiling, Qfloor. destruct x as [n d]. simpl.
  unfold Qle in H. simpl in H.
  assert (Hn : (n <= 0)%Z) by lia.
  replace n with (- - n)%Z at 1 by lia.
  rewrite Z.quot_opp_l by lia. f_equal.
  apply Z.quot_div_nonneg; lia.
Qed.

(** X2. At price zero the goods are free for a household that is not in
    debt, which gets its whole demand and keeps its balance, and the call
    raises [ZeroDivisionError] for a household in debt. *)
Theorem purchase_at_price_zero (hh : Household.t) (P : Q) :
  P == 0 ->
  (0 <= Household.balance hh ->
   exists hh',
     Household.place_order_and_pay hh P = Some (Household.size hh, hh') /\
     Household.balance hh' == Household.balance hh) /\
  (Household.balance hh < 0 -> Household.place_order_and_pay hh P = None).
Proof.
  intros HP.
  assert (Hcost : inject_Z (Household.size hh) * P == 0) by (rewrite HP; ring).
  split.
  - intros HB. eexists. split.
    + apply place_order_and_pay_affordable. lra.
    + simpl. lra.
  - intros HB. unfold Household.place_order_and_pay, Household.determine_food_demand.
    rewrite Z.mul_1_r.
    destruct (Qle_bool _ _) eqn:E.
    + apply Qle_bool_iff in E. lra.
    + unfold py_div. apply Qeq_eq_bool in HP. now rewrite HP.
Qed.

Lemma purchase_at_price_zero_witness :
  Household.place_order_and_pay (Household.mk 0 (-3) 2 None) 0 = None.
Proof.
  apply (proj2 (purchase_at_price_zero (Household.mk 0 (-3) 2 None) 0
                  ltac:(reflexivity))).
  reflexivity.
Defined.

(** X3. A household in debt buys nothing: for a balance [B < 0], a price
    [P > 0] and a size [>= 0], a call that returns has returned a quantity
    [q <= 0], so that the tick records no sale, and has left the balance
    [B - q * P], which is not below [B]. *)
Theorem purchase_in_debt (hh : Household.t) (P : Q) (q : Z)
    (hh' : Household.t) :
  Household.balance hh < 0 -> 0 < P -> (0 <= Household.size hh)%Z ->
  Household.place_order_and_pay hh P = Some (q, hh') ->
  (q <= 0)%Z /\
  (0 <? q)%Z = false /\
  Household.balance hh' = Household.balance hh - inject_Z q * P /\
  Household.balance hh <= Household.balance hh'.
Proof.
  intros HB HP Hs H.
  apply place_order_and_pay_inv in H.
  set (B := Household.balance hh) in *.
  assert (Hsz : 0 <= inject_Z (Household.size hh))
    by (change 0 with (inject_Z 0); rewrite <- Zle_Qle; lia).
  assert (0 <= inject_Z (Household.size hh) * P)
    by (apply Qmult_le_0_compat; lra).
  destruct H as [-> [[Hle _]|[_ [_ ->]]]]; [lra|].
  assert (Hx : B / P <= 0).
  { apply Qle_shift_div_r; [assumption|]. lra. }
  rewrite (py_int_ceiling _ Hx).
  set (c := Qceiling (B / P)) in *.
  assert (Hc0 : (c <= 0)%Z).
  { unfold c. change 0%Z with (Qceiling 0). now apply Qceiling_resp_le. }
  assert (Hc0' : inject_Z c <= 0)
    by (change 0 with (inject_Z 0); now rewrite <- Zle_Qle).
  assert (inject_Z c * P <= 0 * P) by (apply Qmult_le_compat_r; lra).
  split; [assumption|]. split; [apply Z.ltb_ge; assumption|].
  split; [reflexivity|].
  cbn [Household.balance Household.set_balance]. fold B. lra.
Qed.

Lemma purchase_in_debt_witness :
  exists q hh',
    Household.place_order_and_pay (Household.mk 0 (-25) 1 None) 10
      = Some (q, hh') /\
    (q <= 0)%Z /\ -25 <= Household.balance hh'.
Proof.
  do 2 eexists. split; [reflexivity|].
  destruct (purchase_in_debt (Household.mk 0 (-25) 1 None) 10 _ _
              ltac:(reflexivity) ltac:(reflexivity) ltac:(discriminate)
              eq_refl) as (Hq & _ & _ & Hb).
  split; assumption.
Defined.

(** ** Household: the purchase in binary64, what rounding leaves true *)

Section Binary64Purchase.

Import Stdlib.Floats.Floats.

(** X24. In the binary64 arithmetic of the program, for a balance [B] that
    is not negative, a finite price [P > 0] and a size [>= 0], a call that
    returns has returned a quantity [q] that is not negative and has left
    the balance [B - q * P] as binary64 computes it; when [q] is 0 the
    balance is the very float it was; and the id, the size and the
    employer of the household are untouched. *)
Theorem purchase_keeps_balance_at_zero (hh : Binary64.Household.t)
    (P : float) (q : Z) (hh' : Binary64.Household.t) :
  (0 <=? Binary64.Household.balance hh)%float = true ->
  (0 <? P)%float = true -> is_infinity P = false ->
  (0 <= Binary64.Household.size hh)%Z ->
  Binary64.Household.place_order_and_pay hh P = Some (q, hh') ->
  (0 <= q)%Z /\
  (exists quantity,
     Binary64.of_int q = Some quantity /\
     Binary64.Household.balance hh' =
       (Binary64.Household.balance hh - quantity * P)%float) /\
  (q = 0%Z ->
   Binary64.Household.balance hh' = Binary64.Household.balance hh) /\
  Binary64.Household.id hh' = Binary64.Household.id hh /\
  Binary64.Household.size hh' = Binary64.Household.size hh /\
  Binary64.Household.employer_id hh' = Binary64.Household.employer_id hh.
Proof.
  intros HB HP Hfin Hs H.
  destruct (place_order_and_pay_cases64 hh P q hh' H)
    as (demand & Hd & [(Hc & -> & ->)|(Hc & Hq & quantity & Hfq & ->)]).
  - split; [assumption|]. split; [|split; [|repeat split]].
    + exists demand. split; [assumption|reflexivity].
    + intros E. rewrite E, of_int_0 in Hd. injection Hd as <-.
      cbn [Binary64.Household.balance Binary64.Household.set_balance].
      now apply sub_zero_mul.
  - split; [|split; [|split; [|repeat split]]].
    + apply (py_int_nonneg _ _ (div_nonneg _ _ HB HP) Hq).
    + exists quantity. split; [assumption|reflexivity].
    + intros ->. rewrite of_int_0 in Hfq. injection Hfq as <-.
      cbn [Binary64.Household.balance Binary64.Household.set_balance].
      now apply sub_zero_mul.
Qed.

Lemma purchase_keeps_balance_at_zero_witness :
  exists hh',
    Binary64.Household.place_order_and_pay
      (Binary64.Household.mk 4 7 1 (Some 2%nat)) 10 = Some (0%Z, hh') /\
    Binary64.Household.balance hh' = 7%float /\
    Binary64.Household.employer_id hh' = Some 2%nat.
Proof.
  eexists. split; [vm_compute; reflexivity|].
  destruct (purchase_keeps_balance_at_zero
              (Binary64.Household.mk 4 7 1 (Some 2%nat)) 10%float 0%Z _
              ltac:(reflexivity) ltac:(reflexivity) ltac:(reflexivity)
              ltac:(discriminate) ltac:(vm_compute; reflexivity))
    as (_ & _ & Hb & _ & _ & He).
  split; [exact (Hb eq_refl)|exact He].
Defined.

End Binary64Purchase.

(** ** Firm: payday at the edges *)

Lemma distribute_wages_incl (ids : list nat) (w : Q) :
  forall d d', Firm.distribute_wages ids w d = Some d' -> incl ids (keys d).
Proof.
  induction ids as [|i ids IH]; simpl; intros d d' H.
  - intros j [].
  - destruct (Firm.credit i w d) as [d1|] eqn:C; simpl bind in H; [|discriminate].
    pose proof (credit_keys _ _ _ _ C) as Hk.
    apply credit_inv in C. destruct C as (hh & Hg & _).
    intros j [<-|Hj].
    + eapply get_Some_in_keys; eassumption.
    + rewrite <- Hk. apply (IH _ _ H). assumption.
Qed.

(** X4. [pay_workers] returns exactly when every id on the roster is a key
    of the registry; otherwise the lookup of the missing worker raises
    [KeyError]. *)
Theorem pay_workers_returns_iff (f : Firm.t) (hs : dict Household.t) :
  (exists r, Firm.pay_workers f hs = Some r) <->
  incl (Firm.worker_ids f) (keys hs).
Proof.
  split.
  - intros [[f' hs'] H]. apply pay_workers_inv in H.
    destruct H as [(E & _ & _)|(_ & _ & D)].
    + rewrite E. intros j [].
    + eapply distribute_wages_incl; eassumption.
  - intros Hin. destruct (pay_workers_total f hs Hin) as (f' & hs' & H).
    now exists (f', hs').
Qed.

Lemma credit_get (i : nat) (w : Q) (d d' : dict Household.t) (j : nat)
    (hh : Household.t) :
  Firm.credit i w d = Some d' -> get j d = Some hh ->
  get j d' =
    Some (if Nat.eqb i j
          then Household.set_balance hh (Household.balance hh + w)
          else hh).
Proof.
  intros C Hg. apply credit_inv in C. destruct C as (hi & Hi & ->).
  destruct (Nat.eqb i j) eqn:E.
  - apply Nat.eqb_eq in E. subst j. rewrite get_set_eq. congruence.
  - apply Nat.eqb_neq in E. now rewrite get_set_neq.
Qed.

(** The part of a household that only setup writes. *)
Definition household_static (h : Household.t) : nat * Z * option nat :=
  (Household.id h, Household.size h, Household.employer_id h).

Lemma distribute_wages_count (ids : list nat) (w : Q) (j : nat) :
  forall d d' hh,
    Firm.distribute_wages ids w d = Some d' -> get j d = Some hh ->
    exists hh2,
      get j d' = Some hh2 /\
      household_static hh2 = household_static hh /\
      Household.balance hh2 ==
        Household.balance hh + inject_Z (Z.of_nat (count_occ Nat.eq_dec ids j)) * w.
Proof.
  induction ids as [|i ids IH]; intros d d' hh.
  - simpl. intros [= <-] Hg. exists hh. repeat split; [assumption|]. ring.
  - cbn [Firm.distribute_wages].
    destruct (Firm.credit i w d) as [d1|] eqn:C; simpl bind; [|discriminate].
    intros H Hg. pose proof (credit_get _ _ _ _ _ _ C Hg) as Hg1.
    destruct (IH _ _ _ H Hg1) as (hh2 & G2 & S2 & B2).
    exists hh2. split; [assumption|]. cbn [count_occ].
    destruct (Nat.eq_dec i j) as [->|Hne].
    + rewrite Nat.eqb_refl in *. split; [rewrite S2; reflexivity|].
      rewrite B2. simpl Household.balance.
      rewrite Nat2Z.inj_succ. unfold Z.succ. rewrite inject_Z_plus. ring.
    + apply Nat.eqb_neq in Hne. rewrite Hne in *. split; assumption.
Qed.

(** X5. [pay_workers] credits a household once for each time its id stands
    on the roster, and changes nothing else of it: a household listed [n]
    times gains [n] times the wage [(balance + revenue) * wage_rate / len],
    one not listed gains nothing. *)
Theorem pay_workers_credits_per_entry (f f' : Firm.t)
    (hs hs' : dict Household.t) :
  Firm.pay_workers f hs = Some (f', hs') ->
  forall j hh,
    get j hs = Some hh ->
    exists hh2,
      get j hs' = Some hh2 /\
      household_static hh2 = household_static hh /\
      Household.balance hh2 ==
        Household.balance hh +
        inject_Z (Z.of_nat (count_occ Nat.eq_dec (Firm.worker_ids f) j)) *
        ((Firm.balance f + Firm.revenue_this_tick f) * Firm.wage_rate f /
         inject_Z (Z.of_nat (length (Firm.worker_ids f)))).
Proof.
  intros H j hh Hg. apply pay_workers_inv in H.
  destruct H as [(E & _ & ->)|(_ & _ & D)].
  - exists hh. rewrite E. simpl. repeat split; [assumption|].
    unfold Qdiv. simpl. ring.
  - apply (distribute_wages_count _ _ _ _ _ _ D Hg).
Qed.

Lemma pay_workers_credits_per_entry_witness :
  let f := Firm.mk 0 0 10 (1 # 2) [0%nat; 0%nat] 10 in
  let hh := Household.mk 0 40 1 (Some 0%nat) in
  exists f' hs' hh2,
    Firm.pay_workers f [(0%nat, hh)] = Some (f', hs') /\
    get 0%nat hs' = Some hh2 /\
    Household.balance hh2 == 45.
Proof.
  intros f hh.
  destruct (pay_workers_total f [(0%nat, hh)]) as (f' & hs' & H).
  { intros i [<-|[<-|[]]]; simpl; auto. }
  destruct (pay_workers_credits_per_entry f f' [(0%nat, hh)] hs' H 0%nat hh
              eq_refl) as (hh2 & G & _ & B).
  exists f', hs', hh2. repeat split; [assumption|assumption|].
  rewrite B. reflexivity.
Defined.

(** X6. [pay_workers] makes and destroys no money, whatever the roster
    (repeated ids included) and the wage rate: the households gain what
    the firm pays out, [(balance + revenue) * wage_rate] with a roster and
    nothing without one. *)
Theorem pay_workers_conserves_money (f f' : Firm.t)
    (hs hs' : dict Household.t) :
  Firm.pay_workers f hs = Some (f', hs') ->
  let payout :=
    match Firm.worker_ids f with
    | [] => 0
    | _ :: _ => (Firm.balance f + Firm.revenue_this_tick f) * Firm.wage_rate f
    end in
  household_money hs' == household_money hs + payout /\
  firm_holdings f' == firm_holdings f - payout.
Proof.
  intros H. apply pay_workers_inv in H.
  destruct H as [(E & -> & ->)|(Hne & -> & D)]; unfold firm_holdings.
  - rewrite E. simpl. split; ring.
  - rewrite (distribute_wages_money _ _ _ _ D).
    destruct (Firm.worker_ids f) as [|i ids]; [congruence|].
    cbv zeta. cbn [Firm.balance Firm.revenue_this_tick Firm.wage_rate
                  Firm.worker_ids Firm.fold_revenue Firm.set_balance].
    split; [|ring]. field. apply (inject_length_nonzero _ i ids).
Qed.

Lemma pay_workers_conserves_money_witness :
  let f := Firm.mk 0 0 10 (1 # 2) [0%nat; 0%nat] 10 in
  let hs := [(0%nat, Household.mk 0 40 1 (Some 0%nat))] in
  exists f' hs',
    Firm.pay_workers f hs = Some (f', hs') /\
    household_money hs' == household_money hs + 5.
Proof.
  intros f hs.
  destruct (pay_workers_total f hs) as (f' & hs' & H).
  { intros i [<-|[<-|[]]]; simpl; auto. }
  destruct (pay_workers_conserves_money f f' hs hs' H) as [Hm _].
  exists f', hs'. split; [assumption|]. rewrite Hm. reflexivity.
Defined.

(** ** Setup: errors, and the world as a function of the choices *)

(** X7. The constructor raises when [N_H = 0] ([ZeroDivisionError] in
    [M0 / N_H]) and when there are households to employ and no firm
    ([IndexError] in [random.choice] for the first household). *)
Theorem setup_world_raises (cfg : Config) (g : Rng) :
  N_H cfg = 0%Z \/ ((0 < N_H cfg)%Z /\ (N_F cfg <= 0)%Z) ->
  _setup_world cfg g = None.
Proof.
  intros [E|[HH HF]]; unfold _setup_world.
  - rewrite E. reflexivity.
  - rewrite py_div_Some by (unfold Qeq; simpl; lia). simpl bind.
    unfold py_range.
    replace (Z.to_nat (N_F cfg)) with 0%nat by lia.
    destruct (Z.to_nat (N_H cfg)) as [|n] eqn:E; [lia|].
    reflexivity.
Qed.

Lemma setup_world_raises_witness :
  _setup_world (mkConfig 3 0 10 (1 # 2) 100 1) (mkRng (fun n => n) 0) = None /\
  _setup_world (mkConfig 0 2 10 (1 # 2) 100 1) (mkRng (fun n => n) 0) = None.
Proof.
  split; apply setup_world_raises.
  - left. reflexivity.
  - right. split; [reflexivity|discriminate].
Defined.

Lemma nth_error_seq_0 (m i : nat) :
  (i < m)%nat -> nth_error (seq 0 m) i = Some i.
Proof.
  intros H. rewrite (nth_error_nth' _ 0%nat) by (now rewrite length_seq).
  now rewrite seq_nth.
Qed.

Lemma random_choice_seq (m : nat) (g : Rng) :
  (0 < m)%nat ->
  random_choice (seq 0 m) g = Some (draw g 0 mod m, next g)%nat.
Proof.
  intros Hm. unfold random_choice.
  destruct (seq 0 m) as [|x l] eqn:E.
  - destruct m; [lia|discriminate].
  - rewrite <- E, length_seq, nth_error_seq_0; [reflexivity|].
    now apply Nat.mod_upper_bound, Nat.neq_0_lt_0.
Qed.

Section SetupRun.

Variable cfg : Config.
Variable initial_balance : Q.
Variable m : nat.
Variable g0 : Rng.

Hypothesis firms_exist : (0 < m)%nat.

(** The firm the [i]-th draw of the generator picks among [m] firms. *)
Definition employer_of (i : nat) : nat := (draw g0 i mod m)%nat.

Definition hired (e : nat) (ids : list nat) : list nat :=
  filter (fun i => Nat.eqb (employer_of i) e) ids.

Definition created_household (i : nat) : Household.t :=
  Household.mk i initial_balance (household_size cfg) (Some (employer_of i)).

Definition with_workers (f : Firm.t) (ids : list nat) : Firm.t :=
  Firm.mk (Firm.id f) (Firm.balance f) (Firm.price f) (Firm.wage_rate f)
    (Firm.worker_ids f ++ ids) (Firm.revenue_this_tick f).

(** The second loop of the setup over the ids [a, a+1, ..., a+n-1], the
    generator standing at its [a]-th draw. *)
Lemma create_households_run (n : nat) :
  forall (a : nat) (hs : dict Household.t) (fs : dict Firm.t),
    (forall i, (a <= i)%nat -> ~ In i (keys hs)) ->
    keys fs = seq 0 m ->
    exists hs' fs',
      create_households (seq a n) cfg initial_balance (seq 0 m)
        (hs, fs, mkRng (stream g0) (pos g0 + a))
      = Some (hs', fs', mkRng (stream g0) (pos g0 + (a + n))) /\
      (forall i, (a <= i < a + n)%nat ->
         get i hs' = Some (created_household i)) /\
      (forall i, (i < a)%nat -> get i hs' = get i hs) /\
      (forall e f,
         get e fs = Some f ->
         get e fs' = Some (with_workers f (hired e (seq a n)))).
Proof.
  induction n as [|n IH]; intros a hs fs Hfresh Hfk.
  - exists hs, fs. simpl. rewrite Nat.add_0_r. split; [reflexivity|].
    split; [intros i Hi; lia|]. split; [reflexivity|].
    intros e f Hf. rewrite Hf. f_equal. unfold with_workers, hired. simpl.
    rewrite app_nil_r. now destruct f.
  - set (g := mkRng (stream g0) (pos g0 + a)).
    set (e0 := employer_of a).
    assert (He0 : (e0 < m)%nat)
      by (apply Nat.mod_upper_bound; lia).
    destruct (in_keys_get fs e0) as [f0 Hf0].
    { rewrite Hfk. apply in_seq. lia. }
    set (hs1 := set a (created_household a) hs).
    set (fs1 := set e0 (Firm.add_worker f0 a) fs).
    assert (Hstep : create_household a cfg initial_balance (seq 0 m) (hs, fs, g)
                    = Some (hs1, fs1, mkRng (stream g0) (pos g0 + S a))).
    { assert (Ed : (draw g 0 mod m)%nat = e0).
      { unfold e0, employer_of, draw, g. simpl. now rewrite Nat.add_0_r. }
      unfold create_household. rewrite random_choice_seq by assumption.
      rewrite Ed. cbn [bind]. rewrite get_set_eq. cbn [bind].
      rewrite Hf0. cbn [bind]. rewrite set_set.
      unfold next, g. simpl. now rewrite Nat.add_succ_r. }
    destruct (IH (S a) hs1 fs1) as (hs' & fs' & Hrun & Hnew & Hold & Hfirms).
    { intros i Hi. unfold hs1. rewrite keys_set_notin by (apply Hfresh; lia).
      rewrite in_app_iff. intros [H|[H|[]]]; [|lia].
      apply (Hfresh i); [lia|assumption]. }
    { unfold fs1. rewrite keys_set_in; [assumption|].
      eapply get_Some_in_keys; eassumption. }
    exists hs', fs'. split; [|split; [|split]].
    + cbn [seq create_households]. fold g. rewrite Hstep. simpl bind.
      rewrite Hrun. do 3 f_equal. lia.
    + intros i Hi. destruct (Nat.eq_dec i a) as [->|Hne].
      * rewrite Hold by lia. unfold hs1. apply get_set_eq.
      * apply Hnew. lia.
    + intros i Hi. rewrite Hold by lia. unfold hs1. apply get_set_neq. lia.
    + intros e f Hf. cbn [seq]. unfold hired. cbn [filter]. fold e0.
      destruct (Nat.eqb e0 e) eqn:E.
      * apply Nat.eqb_eq in E. subst e.
        assert (f = f0) as -> by congruence.
        rewrite (Hfirms e0 (Firm.add_worker f0 a)) by apply get_set_eq.
        f_equal. unfold with_workers, Firm.add_worker. simpl.
        now rewrite <- app_assoc.
      * apply Nat.eqb_neq in E.
        apply Hfirms. unfold fs1. now rewrite get_set_neq.
Qed.

End SetupRun.

(** The world the constructor builds, draw by draw. *)
Lemma setup_world_run (cfg : Config) (g : Rng) (s : Simulation) (g' : Rng) :
  _setup_world cfg g = Some (s, g') ->
  let n := Z.to_nat (N_H cfg) in
  let m := Z.to_nat (N_F cfg) in
  g' = mkRng (stream g) (pos g + n) /\
  (forall i, (i < n)%nat ->
     get i (households s) =
       Some (created_household cfg (M0 cfg / inject_Z (N_H cfg)) m g i)) /\
  (forall e, (e < m)%nat ->
     get e (firms s) =
       Some (Firm.mk e 0 (p cfg) (wage_rate cfg) (hired m g e (seq 0 n)) 0)).
Proof.
  intros H n m.
  pose proof (setup_world_inv _ _ _ _ H) as (_ & Hnz & _).
  unfold _setup_world in H.
  rewrite create_firms_app in H by (simpl; apply py_range_NoDup).
  rewrite py_div_Some in H by assumption.
  simpl app in H. simpl bind in H.
  set (fs0 := map (fun i => (i, Firm.init i (p cfg) (wage_rate cfg)))
                (py_range (N_F cfg))) in *.
  assert (Hk0 : keys fs0 = seq 0 m).
  { unfold fs0, keys. rewrite map_map. simpl. apply map_id. }
  assert (Hget0 : forall e, (e < m)%nat ->
            get e fs0 = Some (Firm.init e (p cfg) (wage_rate cfg))).
  { intros e He. apply in_get.
    - unfold wf. rewrite Hk0. apply seq_NoDup.
    - unfold fs0. apply (in_map (fun i => (i, Firm.init i (p cfg) (wage_rate cfg)))).
      apply in_seq. lia. }
  rewrite Hk0 in H. unfold py_range in H. fold n in H.
  destruct n as [|n'] eqn:En.
  - simpl in H. injection H as <- <-. simpl. rewrite Nat.add_0_r.
    split; [now destruct g|]. split; [intros i Hi; lia|].
    intros e He. now rewrite Hget0.
  - assert (Hm : (0 < m)%nat).
    { destruct m; [|lia]. cbn in H. discriminate. }
    destruct (create_households_run cfg (M0 cfg / inject_Z (N_H cfg)) m g Hm
                (S n') 0 empty fs0) as (hs' & fs' & Hrun & Hnew & _ & Hfirms);
      [intros i _ []|assumption|].
    rewrite Nat.add_0_r in Hrun.
    replace (mkRng (stream g) (pos g)) with g in Hrun by now destruct g.
    rewrite Hrun in H. simpl bind in H. injection H as <- <-. simpl.
    split; [reflexivity|]. split.
    + intros i Hi. apply Hnew. lia.
    + intros e He. rewrite (Hfirms e _ (Hget0 e He)). reflexivity.
Qed.

(** X9. After the constructor every firm [e] has balance 0, no pending
    revenue, the configured price and wage rate, and as roster the ids of
    the households whose draw picked [e], in increasing order. *)
Theorem setup_world_firms (cfg : Config) (g : Rng) (s : Simulation)
    (g' : Rng) :
  _setup_world cfg g = Some (s, g') ->
  forall e f,
    get e (firms s) = Some f ->
    f = Firm.mk e 0 (p cfg) (wage_rate cfg)
          (filter (fun i => Nat.eqb (draw g i mod Z.to_nat (N_F cfg)) e)
             (seq 0 (Z.to_nat (N_H cfg))))
          0.
Proof.
  intros H e f He. pose proof (setup_world_run cfg g s g' H) as (_ & _ & Hf).
  assert (Hlt : (e < Z.to_nat (N_F cfg))%nat).
  { apply get_Some_in_keys in He.
    pose proof (setup_world_inv _ _ _ _ H) as (_ & _ & Hinv).
    rewrite (si_fkeys _ _ _ _ _ _ Hinv) in He. apply in_seq in He. lia. }
  rewrite (Hf e Hlt) in He. now injection He as <-.
Qed.

Lemma setup_world_firms_witness :
  let cfg := mkConfig 3 4 10 (1 # 2) 100 1 in
  let g := mkRng (fun n => 2 * n + 1)%nat 0 in
  exists s g' f,
    _setup_world cfg g = Some (s, g') /\
    get 1%nat (firms s) = Some f /\
    Firm.worker_ids f = [0%nat; 3%nat].
Proof.
  intros cfg g.
  destruct (setup_world_total cfg g) as (s & g' & H); [reflexivity|reflexivity|].
  destruct (in_keys_get (firms s) 1%nat) as [f Hf].
  { pose proof (setup_world_inv _ _ _ _ H) as (_ & _ & Hinv).
    rewrite (si_fkeys _ _ _ _ _ _ Hinv). simpl. auto. }
  exists s, g', f. split; [assumption|]. split; [assumption|].
  rewrite (setup_world_firms cfg g s g' H 1%nat f Hf). reflexivity.
Defined.

(** ** The tick: what it chooses, what it leaves alone *)

Lemma shopping_phase_rng (fl : list nat) (ks : list nat) :
  forall st st',
    shopping_phase fl ks st = Some st' ->
    ts_rng st' = mkRng (stream (ts_rng st)) (pos (ts_rng st) + length ks).
Proof.
  unfold shopping_phase.
  induction ks as [|k ks IH]; intros st st'; simpl.
  - intros [= <-]. rewrite Nat.add_0_r. now destruct (ts_rng st).
  - destruct (shop fl k st) as [st1|] eqn:Hs; simpl bind; [|discriminate].
    intros H. rewrite (IH _ _ H).
    apply shop_inv in Hs.
    destruct Hs as (hh & fk & f & q & hh' & _ & Hc & _).
    apply random_choice_inv in Hc. destruct Hc as (_ & _ & ->).
    simpl. now rewrite Nat.add_succ_r.
Qed.

(** X10. A tick that returns has called [random.choice] exactly once for
    each household, whatever the purchases were, and never in the payday
    phase: the count of the calls has grown by the number of
    households. *)
Theorem run_one_tick_draws (s : Simulation) (g : Rng) txs s' g' :
  run_one_tick s g = Some (txs, s', g') ->
  g' = mkRng (stream g) (pos g + length (households s)).
Proof.
  intros H. apply run_one_tick_phases in H.
  destruct H as (mid & fin & H1 & H2 & E).
  unfold finish in E. injection E as _ _ ->.
  destruct (payday_phase_transactions _ _ _ H2) as [_ ->].
  rewrite (shopping_phase_rng _ _ _ _ H1). simpl.
  unfold keys. now rewrite length_map.
Qed.

Lemma run_one_tick_draws_witness :
  let s := mkSimulation (mkConfig 1 2 10 (1 # 2) 100 1)
             [(0%nat, Household.mk 0 50 1 (Some 0%nat));
              (1%nat, Household.mk 1 7 1 (Some 0%nat))]
             [(0%nat, Firm.mk 0 0 10 (1 # 2) [0%nat; 1%nat] 0)] in
  exists txs s' g',
    run_one_tick s (mkRng (fun n => n) 5) = Some (txs, s', g') /\
    g' = mkRng (fun n => n) 7.
Proof.
  intros s. do 3 eexists. split; [reflexivity|].
  exact (run_one_tick_draws s (mkRng (fun n => n) 5) _ _ _ eq_refl).
Defined.

(** The part of a firm that only setup writes. *)
Definition firm_static (f : Firm.t) : nat * Q * Q * list nat :=
  (Firm.id f, Firm.price f, Firm.wage_rate f, Firm.worker_ids f).

Lemma get_set_proj {V A : Type} (proj : V -> A) (d : dict V) (k : nat)
    (v v' : V) :
  get k d = Some v -> proj v' = proj v ->
  forall k', option_map proj (get k' (set k v' d)) = option_map proj (get k' d).
Proof.
  intros Hg Hp k'. destruct (Nat.eq_dec k k') as [<-|Hne].
  - rewrite get_set_eq, Hg. simpl. now rewrite Hp.
  - now rewrite get_set_neq.
Qed.

Lemma distribute_wages_static (ids : list nat) (w : Q) :
  forall d d',
    Firm.distribute_wages ids w d = Some d' ->
    forall k,
      option_map household_static (get k d') =
      option_map household_static (get k d).
Proof.
  induction ids as [|i ids IH]; simpl; intros d d'.
  - now intros [= <-].
  - destruct (Firm.credit i w d) as [d1|] eqn:C; simpl bind; [|discriminate].
    intros H k. rewrite (IH _ _ H k).
    apply credit_inv in C. destruct C as (hh & Hg & ->).
    now apply (get_set_proj household_static _ _ hh).
Qed.

(** The agents of the loop state are those of the world [s], up to
    balances and pending revenues. *)
Record same_agents (s : Simulation) (st : TickState) : Prop := {
  sa_hkeys : keys (ts_households st) = keys (households s);
  sa_fkeys : keys (ts_firms st) = keys (firms s);
  sa_households :
    forall k,
      option_map household_static (get k (ts_households st)) =
      option_map household_static (get k (households s));
  sa_firms :
    forall k,
      option_map firm_static (get k (ts_firms st)) =
      option_map firm_static (get k (firms s))
}.

Lemma shop_same_agents (s : Simulation) (fl : list nat) (k : nat)
    (st st' : TickState) :
  same_agents s st -> shop fl k st = Some st' -> same_agents s st'.
Proof.
  intros [Hhk Hfk Hh Hf] H. apply shop_inv in H.
  destruct H as (hh & fk & f & q & hh' & Hg & _ & Hgf & Hp & Eh & Hcase).
  apply place_order_and_pay_inv in Hp. destruct Hp as [-> _].
  assert (Hfirms :
    keys (ts_firms st') = keys (firms s) /\
    forall k0, option_map firm_static (get k0 (ts_firms st')) =
               option_map firm_static (get k0 (firms s))).
  { destruct Hcase as [(_ & -> & _)|(_ & -> & _)]; [|auto]. split.
    - rewrite keys_set_in; [assumption|].
      eapply get_Some_in_keys; eassumption.
    - intros k0. rewrite <- Hf. now apply (get_set_proj firm_static _ _ f). }
  destruct Hfirms as [Hfk' Hf']. constructor; try assumption.
  - rewrite Eh, keys_set_in; [assumption|].
    eapply get_Some_in_keys; eassumption.
  - intros k0. rewrite Eh, <- Hh.
    now apply (get_set_proj household_static _ _ hh).
Qed.

Lemma payday_same_agents (s : Simulation) (k : nat) (st st' : TickState) :
  same_agents s st -> payday k st = Some st' -> same_agents s st'.
Proof.
  intros [Hhk Hfk Hh Hf] H. apply payday_inv in H.
  destruct H as (f & f' & Hgf & Hp & Ef & _ & _).
  constructor.
  - rewrite (pay_workers_keys _ _ _ _ Hp). assumption.
  - rewrite Ef, keys_set_in; [assumption|].
    eapply get_Some_in_keys; eassumption.
  - intros k0. rewrite <- Hh. apply pay_workers_inv in Hp.
    destruct Hp as [(_ & _ & ->)|(_ & _ & D)]; [reflexivity|].
    apply (distribute_wages_static _ _ _ _ D).
  - intros k0. rewrite Ef, <- Hf.
    apply (get_set_proj firm_static _ _ f); [assumption|].
    apply pay_workers_inv in Hp.
    destruct Hp as [(_ & -> & _)|(_ & -> & _)]; reflexivity.
Qed.

Lemma run_one_tick_same_agents (s : Simulation) (g : Rng) txs s' g' :
  run_one_tick s g = Some (txs, s', g') ->
  same_agents s (mkTickState (households s') (firms s') txs g').
Proof.
  intros H. apply (run_one_tick_inv (same_agents s)) in H; [assumption| | |].
  - intros k st st'. apply shop_same_agents.
  - intros k st st'. apply payday_same_agents.
  - constructor; reflexivity.
Qed.

(** X11. A tick never renumbers, creates or removes an agent: the keys of
    both dictionaries and their order, the configuration, and of every
    agent the id, the household size and employer, the price, wage rate
    and roster are after the tick what they were before; only balances
    and pending revenues change. *)
Theorem run_one_tick_keeps_agents (s : Simulation) (g : Rng) txs s' g' :
  run_one_tick s g = Some (txs, s', g') ->
  config s' = config s /\
  keys (households s') = keys (households s) /\
  keys (firms s') = keys (firms s) /\
  (forall k,
     option_map household_static (get k (households s')) =
     option_map household_static (get k (households s))) /\
  (forall k,
     option_map firm_static (get k (firms s')) =
     option_map firm_static (get k (firms s))).
Proof.
  intros H. pose proof (run_one_tick_same_agents s g txs s' g' H) as [A B C D].
  split; [|auto].
  apply run_one_tick_phases in H. destruct H as (? & ? & _ & _ & E).
  unfold finish in E. now injection E as _ -> _.
Qed.

Lemma run_one_tick_keeps_agents_witness :
  let s := mkSimulation (mkConfig 1 2 10 (1 # 2) 100 1)
             [(0%nat, Household.mk 0 50 1 (Some 0%nat));
              (1%nat, Household.mk 1 7 1 (Some 0%nat))]
             [(0%nat, Firm.mk 0 0 10 (1 # 2) [0%nat; 1%nat] 0)] in
  exists txs s' g',
    run_one_tick s (mkRng (fun n => n) 5) = Some (txs, s', g') /\
    keys (households s') = [0%nat; 1%nat].
Proof.
  intros s. do 3 eexists. split; [reflexivity|].
  exact (proj1 (proj2 (run_one_tick_keeps_agents s (mkRng (fun n => n) 5)
                         _ _ _ eq_refl))).
Defined.

Lemma payday_revenue_reset (j k : nat) (st st' : TickState) :
  payday j st = Some st' ->
  (j = k \/
   exists f, get k (ts_firms st) = Some f /\ Firm.revenue_this_tick f = 0) ->
  exists f', get k (ts_firms st') = Some f' /\ Firm.revenue_this_tick f' = 0.
Proof.
  intros H Hk. apply payday_inv in H.
  destruct H as (f & f' & Hgf & Hp & -> & _ & _).
  apply pay_workers_inv in Hp.
  assert (Hr : Firm.revenue_this_tick f' = 0).
  { destruct Hp as [(_ & -> & _)|(_ & -> & _)]; reflexivity. }
  destruct (Nat.eq_dec j k) as [<-|Hne].
  - exists f'. now rewrite get_set_eq.
  - destruct Hk as [->|(f0 & Hf0 & Hr0)]; [congruence|].
    exists f0. now rewrite get_set_neq.
Qed.

Lemma payday_phase_revenue_reset (ks : list nat) (k : nat) :
  forall st st',
    payday_phase ks st = Some st' ->
    (In k ks \/
     exists f, get k (ts_firms st) = Some f /\ Firm.revenue_this_tick f = 0) ->
    exists f', get k (ts_firms st') = Some f' /\ Firm.revenue_this_tick f' = 0.
Proof.
  unfold payday_phase.
  induction ks as [|j ks IH]; intros st st'; simpl.
  - intros [= <-] [[]|H]. exact H.
  - destruct (payday j st) as [st1|] eqn:Hp; simpl bind; [|discriminate].
    intros H Hk. apply (IH _ _ H).
    destruct Hk as [[->|Hin]|Hz].
    + right. apply (payday_revenue_reset k k st st1 Hp). now left.
    + now left.
    + right. apply (payday_revenue_reset j k st st1 Hp). now right.
Qed.

(** X12. After a tick the revenue accumulator of every firm is zero: the
    payday phase visits each firm and folds its revenue into its balance,
    so no sale is carried into the next tick. *)
Theorem run_one_tick_resets_revenue (s : Simulation) (g : Rng) txs s' g' :
  run_one_tick s g = Some (txs, s', g') ->
  forall k f, get k (firms s') = Some f -> Firm.revenue_this_tick f = 0.
Proof.
  intros H k f Hf.
  pose proof (run_one_tick_same_agents s g txs s' g' H) as [_ Hfk _ _].
  simpl in Hfk.
  apply run_one_tick_phases in H. destruct H as (mid & fin & H1 & H2 & E).
  unfold finish in E. injection E as _ -> _. simpl in *.
  assert (Hmid : keys (ts_firms mid) = keys (firms s)).
  { apply (for_each_inv (shop (keys (firms s)))
             (fun st => keys (ts_firms st) = keys (firms s))
             (keys (households s))) with (st := start s g);
      [|reflexivity|exact H1].
    intros k0 st st' _ Hk Hs.
    apply shop_inv in Hs.
    destruct Hs as (? & fk & f0 & ? & ? & _ & _ & Hgf & _ & _ & Hcase).
    destruct Hcase as [(_ & -> & _)|(_ & -> & _)]; [|assumption].
    rewrite keys_set_in; [assumption|]. eapply get_Some_in_keys; eassumption. }
  destruct (payday_phase_revenue_reset (keys (ts_firms mid)) k mid fin H2)
    as (f' & Hf' & Hr).
  - left. rewrite Hmid, <- Hfk. eapply get_Some_in_keys; eassumption.
  - congruence.
Qed.

Lemma run_one_tick_resets_revenue_witness :
  let s := mkSimulation (mkConfig 1 2 10 (1 # 2) 100 1)
             [(0%nat, Household.mk 0 50 1 (Some 0%nat));
              (1%nat, Household.mk 1 7 1 (Some 0%nat))]
             [(0%nat, Firm.mk 0 0 10 (1 # 2) [0%nat; 1%nat] 3)] in
  exists txs s' g' f,
    run_one_tick s (mkRng (fun n => n) 5) = Some (txs, s', g') /\
    get 0%nat (firms s') = Some f /\ Firm.revenue_this_tick f = 0.
Proof.
  intros s. do 4 eexists. split; [reflexivity|]. split; [reflexivity|].
  exact (run_one_tick_resets_revenue s (mkRng (fun n => n) 5) _ _ _ eq_refl
           0%nat _ eq_refl).
Defined.

(** X13. A world with a household and no firm cannot tick: the first
    [random.choice] raises [IndexError]; a world without households ticks
    without a purchase, returns the empty list and draws nothing. *)
Theorem run_one_tick_without_agents (s : Simulation) (g : Rng) :
  (households s <> [] -> firms s = [] -> run_one_tick s g = None) /\
  (households s = [] ->
   forall txs s' g',
     run_one_tick s g = Some (txs, s', g') -> txs = [] /\ g' = g).
Proof.
  split.
  - intros Hh Hf. unfold run_one_tick. rewrite Hf.
    destruct (households s) as [|[k h] rest]; [congruence|].
    unfold shopping_phase, keys. cbn [map fst for_each].
    unfold shop. cbn [ts_households get]. rewrite Nat.eqb_refl.
    reflexivity.
  - intros Hh txs s' g' H.
    apply run_one_tick_phases in H. destruct H as (mid & fin & H1 & H2 & E).
    unfold finish in E. injection E as -> _ ->.
    destruct (payday_phase_transactions _ _ _ H2) as [-> ->].
    rewrite Hh in H1. simpl in H1. injection H1 as <-. auto.
Qed.

Lemma run_one_tick_without_agents_witness :
  run_one_tick
    (mkSimulation (mkConfig 0 1 10 (1 # 2) 100 1)
       [(0%nat, Household.mk 0 100 1 None)] [])
    (mkRng (fun n => n) 0) = None.
Proof.
  apply (proj1 (run_one_tick_without_agents _ _)); [discriminate|reflexivity].
Defined.

(** ** The money supply and the records *)

Lemma measure_zero {V : Type} (m : V -> Q) (d : dict V) :
  Forall (fun kv => m (snd kv) == 0) d -> measure m d == 0.
Proof.
  unfold measure, values. induction 1 as [|[k v] d Hv _ IH]; simpl.
  - reflexivity.
  - simpl in Hv. fold (sumQ (map m (map snd d))). rewrite Hv, IH. ring.
Qed.

Lemma setup_world_money (cfg : Config) (g : Rng) (s : Simulation) (g' : Rng) :
  (0 < N_H cfg)%Z -> _setup_world cfg g = Some (s, g') ->
  total_money s == M0 cfg.
Proof.
  intros HN H.
  pose proof (setup_world_inv _ _ _ _ H) as (_ & Hnz & Hinv).
  apply setup_world_shape in H. destruct H as (_ & Hf & Hh).
  unfold total_money, firm_money.
  rewrite (measure_zero firm_holdings).
  - rewrite (household_money_uniform _ _ Hh).
    assert (E : length (households s) = Z.to_nat (N_H cfg)).
    { rewrite <- (length_map fst). fold (keys (households s)).
      rewrite (si_hkeys _ _ _ _ _ _ Hinv). apply length_seq. }
    rewrite E, Z2Nat.id by lia. field. exact Hnz.
  - eapply Forall_impl; [|exact Hf]. intros kf [Hb Hr].
    unfold firm_holdings. rewrite Hb, Hr. reflexivity.
Qed.

(** X14. The money supply is constant: for a configuration with
    [N_H > 0], [p > 0], [wage_rate] in [[0, 1]], [M0 >= 0] and
    [household_size >= 0], the household balances, firm balances and
    pending revenues of every reachable world add up to [M0]. *)
Theorem money_supply_constant (cfg : Config) (s : Simulation) :
  (0 < N_H cfg)%Z -> 0 < p cfg ->
  0 <= wage_rate cfg -> wage_rate cfg <= 1 ->
  0 <= M0 cfg -> (0 <= household_size cfg)%Z ->
  reachable cfg s ->
  total_money s == M0 cfg.
Proof.
  intros HN Hp Hw0 Hw1 HM Hs.
  induction 1 as [g s g' H|s g txs s' g' Hr IH H].
  - eapply setup_world_money; eassumption.
  - rewrite <- IH.
    apply (run_one_tick_money cfg Hp Hw1 Hw0 Hs s g txs s' g'); [|assumption].
    now apply reachable_solvent.
Qed.

Lemma money_supply_constant_witness :
  let cfg := mkConfig 2 3 10 (1 # 2) 100 1 in
  exists s0 g0 txs s g,
    _setup_world cfg (mkRng (fun n => n) 0) = Some (s0, g0) /\
    run_one_tick s0 g0 = Some (txs, s, g) /\
    total_money s == 100.
Proof.
  intros cfg.
  destruct (setup_world_total cfg (mkRng (fun n => n) 0)) as (s0 & g0 & H0);
    [reflexivity|reflexivity|].
  assert (Hr0 : reachable cfg s0) by (econstructor; eassumption).
  destruct (run_one_tick_total cfg ltac:(reflexivity) s0 g0
              (reachable_shape cfg s0 Hr0)) as [[[txs s] g] H].
  assert (Hr : reachable cfg s) by (econstructor; eassumption).
  exists s0, g0, txs, s, g. split; [assumption|]. split; [assumption|].
  apply (money_supply_constant cfg s);
    try reflexivity; try discriminate; assumption.
Defined.

Section Addresses.

Variable hs0 : dict Household.t.
Variable fs0 : dict Firm.t.
Variable fl : list nat.
Variable g0 : Rng.

Hypothesis household_ids_are_keys :
  forall k h, get k hs0 = Some h -> Household.id h = k.
Hypothesis firm_ids_are_keys :
  forall fk f, get fk fs0 = Some f -> Firm.id f = fk.

Lemma record_of_cases (i k : nat) :
  record_of hs0 fs0 fl g0 i k = [] \/
  exists t,
    record_of hs0 fs0 fl g0 i k = [t] /\
    from_id t = k /\ In (to_id t) (keys fs0).
Proof.
  unfold record_of.
  destruct (purchase hs0 fs0 fl g0 i k) as [[[[q hh'] fk] f]|] eqn:Hpu;
    [|now left].
  destruct (0 <? q)%Z; [|now left].
  right. eexists. split; [reflexivity|].
  apply purchase_inv in Hpu. destruct Hpu as (hh & Hg & _ & Hf & Hp).
  apply place_order_and_pay_inv in Hp. destruct Hp as [-> _]. simpl. split.
  - now apply household_ids_are_keys.
  - rewrite (firm_ids_are_keys _ _ Hf). eapply get_Some_in_keys; eassumption.
Qed.

Lemma records_from_addresses (ks : list nat) :
  forall i,
    NoDup ks ->
    incl (map from_id (records_from hs0 fs0 fl g0 i ks)) ks /\
    NoDup (map from_id (records_from hs0 fs0 fl g0 i ks)) /\
    incl (map to_id (records_from hs0 fs0 fl g0 i ks)) (keys fs0) /\
    (length (records_from hs0 fs0 fl g0 i ks) <= length ks)%nat.
Proof.
  induction ks as [|k ks IH]; intros i Hnd; simpl.
  - repeat split; try (intros x []); constructor.
  - inversion Hnd as [|? ? Hk Hnd']; subst.
    destruct (IH (S i) Hnd') as (Hin & Hnd2 & Hto & Hlen).
    destruct (record_of_cases i k) as [->|(t & -> & Hfrom & Htoid)]; simpl.
    + repeat split; try assumption; [|lia].
      intros x Hx. right. now apply Hin.
    + rewrite Hfrom. repeat split.
      * intros x [<-|Hx]; [now left|right; now apply Hin].
      * constructor; [|assumption]. intros Hx. apply Hk. now apply Hin.
      * intros x [<-|Hx]; [assumption|now apply Hto].
      * lia.
Qed.

End Addresses.

(** X15. In the list a tick returns from a reachable world, every
    [from_id] is the id of a household and every [to_id] the id of a firm
    of the world, no household pays twice, and there are at most as many
    records as households. *)
Theorem run_one_tick_record_addresses (cfg : Config) (s : Simulation)
    (g : Rng) txs s' g' :
  reachable cfg s -> run_one_tick s g = Some (txs, s', g') ->
  incl (map from_id txs) (keys (households s)) /\
  NoDup (map from_id txs) /\
  incl (map to_id txs) (keys (firms s)) /\
  (length txs <= length (households s))%nat.
Proof.
  intros Hr H.
  destruct (run_one_tick_reachable cfg s g txs s' g' Hr H)
    as (_ & _ & _ & _ & -> & _).
  apply reachable_shape in Hr. destruct Hr as [_ [Hhk Hfk Hhs Hfs] _].
  replace (length (households s)) with (length (keys (households s)))
    by (unfold keys; apply length_map).
  apply records_from_addresses.
  - intros k h Hg. apply (Forall_get _ _ _ _ Hhs Hg).
  - intros fk f Hg. apply (Forall_get _ _ _ _ Hfs Hg).
  - rewrite Hhk. apply py_range_NoDup.
Qed.

Lemma run_one_tick_record_addresses_witness :
  let cfg := mkConfig 2 3 10 (1 # 2) 100 1 in
  exists s g txs s' g',
    reachable cfg s /\
    run_one_tick s g = Some (txs, s', g') /\
    NoDup (map from_id txs).
Proof.
  intros cfg.
  destruct (setup_world_total cfg (mkRng (fun n => n) 0)) as (s & g1 & Hs);
    [reflexivity|reflexivity|].
  assert (Hr : reachable cfg s) by (econstructor; eassumption).
  destruct (run_one_tick_total cfg ltac:(reflexivity) s g1
              (reachable_shape cfg s Hr)) as [[[txs s'] g'] H].
  exists s, g1, txs, s', g'. split; [assumption|]. split; [assumption|].
  apply (run_one_tick_record_addresses cfg s g1 txs s' g' Hr H).
Defined.

Definition total_amount (txs : list Transaction) : Q := sumQ (map amount txs).

Lemma total_amount_app (l1 l2 : list Transaction) :
  total_amount (l1 ++ l2) == total_amount l1 + total_amount l2.
Proof.
  unfold total_amount. rewrite map_app.
  induction (map amount l1) as [|x l IH]; simpl.
  - ring.
  - rewrite IH. ring.
Qed.

(** X16. The records account for all the money the shopping phase moves:
    for [N_H > 0], [p > 0], [wage_rate] in [[0, 1]], [M0 >= 0] and
    [household_size >= 0] and a tick from a reachable world, the
    households hold after the shopping phase what they held before less
    the sum of the recorded amounts, and the firms what they held before
    plus that sum. *)
Theorem shopping_phase_accounts (cfg : Config) (s : Simulation) (g : Rng)
    txs s' g' :
  (0 < N_H cfg)%Z -> 0 < p cfg ->
  0 <= wage_rate cfg -> wage_rate cfg <= 1 ->
  0 <= M0 cfg -> (0 <= household_size cfg)%Z ->
  reachable cfg s -> run_one_tick s g = Some (txs, s', g') ->
  exists mid,
    shopping_phase (keys (firms s)) (keys (households s)) (start s g)
      = Some mid /\
    ts_transactions mid = txs /\
    household_money (ts_households mid) ==
      household_money (households s) - total_amount txs /\
    firm_money (ts_firms mid) == firm_money (firms s) + total_amount txs.
Proof.
  intros HN Hp Hw0 Hw1 HM Hs Hr H.
  pose proof (reachable_solvent cfg Hp Hw1 Hw0 s HN HM Hr) as [[Hsh Hfs] Hhs].
  apply run_one_tick_phases in H. destruct H as (mid & fin & H1 & H2 & E).
  unfold finish in E. injection E as -> _ _.
  destruct (payday_phase_transactions _ _ _ H2) as [Et _].
  exists mid. split; [assumption|]. split; [now symmetry|]. rewrite Et.
  set (hkeys := py_range (N_H cfg)). set (fkeys := py_range (N_F cfg)).
  assert (J : tick_solvent cfg hkeys fkeys mid /\
              household_money (ts_households mid) ==
                household_money (households s) - total_amount (ts_transactions mid) /\
              firm_money (ts_firms mid) ==
                firm_money (firms s) + total_amount (ts_transactions mid));
    [|tauto].
  apply (for_each_inv (shop (keys (firms s)))
           (fun st =>
              tick_solvent cfg hkeys fkeys st /\
              household_money (ts_households st) ==
                household_money (households s) - total_amount (ts_transactions st) /\
              firm_money (ts_firms st) ==
                firm_money (firms s) + total_amount (ts_transactions st))
           (keys (households s))) with (st := start s g); [| |exact H1].
  - rewrite (firm_list_keys cfg s Hsh).
    intros k st st' _ (Hst & Hh & Hf) Hk.
    split; [eapply shop_solvent; eassumption|].
    destruct Hst as [[Hshape _] Hsolv]. apply shop_inv in Hk.
    destruct Hk as (hh & fk & f & q & hh' & Hg & _ & Hgf & Hpp & Eh & Hcase).
    pose proof (Forall_get _ _ _ _ (sh_firms _ _ _ _ _ Hshape) Hgf)
      as (_ & Hprice & _).
    pose proof (Forall_get _ _ _ _ (sh_households _ _ _ _ _ Hshape) Hg)
      as (_ & Hsize).
    pose proof (Forall_get _ _ _ _ Hsolv Hg) as Hb.
    unfold household_solvent in Hb. simpl in Hprice, Hsize, Hb.
    assert (Hq : (0 <= q)%Z).
    { apply (place_order_and_pay_qty_nonneg hh (Firm.price f) q hh' Hb);
        [now rewrite Hsize|now rewrite Hprice|exact Hpp]. }
    apply place_order_and_pay_inv in Hpp. destruct Hpp as [-> _].
    unfold household_money, firm_money in *. rewrite Eh.
    rewrite (measure_set_present _ _ _ _ _ Hg). simpl Household.balance.
    destruct Hcase as [(_ & -> & ->)|(Hle & -> & ->)].
    + rewrite (measure_set_present _ _ _ _ _ Hgf), total_amount_app.
      assert (E1 : firm_holdings
                     (Firm.receive_payment f (inject_Z q * Firm.price f)) ==
                   firm_holdings f + inject_Z q * Firm.price f)
        by (unfold firm_holdings; simpl; ring).
      assert (E2 : total_amount
                     [receipt (Household.set_balance hh
                                 (Household.balance hh - inject_Z q * Firm.price f))
                        f q] ==
                   inject_Z q * Firm.price f)
        by (unfold total_amount; simpl; ring).
      rewrite E1, E2, Hh, Hf. split; ring.
    + assert (q = 0%Z) as -> by lia. rewrite Hh, Hf. split; ring.
  - split; [|unfold total_amount; simpl; split; ring].
    split; [split; [now apply tick_shape_start|exact Hfs]|exact Hhs].
Qed.

Lemma shopping_phase_accounts_witness :
  let cfg := mkConfig 2 3 10 (1 # 2) 100 1 in
  exists s g txs s' g' mid,
    reachable cfg s /\
    run_one_tick s g = Some (txs, s', g') /\
    firm_money (ts_firms mid) == firm_money (firms s) + total_amount txs.
Proof.
  intros cfg.
  destruct (setup_world_total cfg (mkRng (fun n => n) 0)) as (s & g1 & Hs);
    [reflexivity|reflexivity|].
  assert (Hr : reachable cfg s) by (econstructor; eassumption).
  destruct (run_one_tick_total cfg ltac:(reflexivity) s g1
              (reachable_shape cfg s Hr)) as [[[txs s'] g'] H].
  destruct (shopping_phase_accounts cfg s g1 txs s' g') as (mid & _ & _ & _ & Hf);
    try reflexivity; try discriminate; try assumption.
  exists s, g1, txs, s', g', mid. auto.
Defined.

(** ** The payday phase, firm by firm *)

(** The wage [pay_workers] computes for each entry of the roster. *)
Definition wage_per_worker (f : Firm.t) : Q :=
  (Firm.balance f + Firm.revenue_this_tick f) * Firm.wage_rate f /
  inject_Z (Z.of_nat (length (Firm.worker_ids f))).

(** The firm [pay_workers] leaves. *)
Definition after_payday (f : Firm.t) : Firm.t :=
  match Firm.worker_ids f with
  | [] => Firm.fold_revenue f
  | _ :: _ =>
      Firm.set_balance (Firm.fold_revenue f)
        (Firm.balance f + Firm.revenue_this_tick f -
         (Firm.balance f + Firm.revenue_this_tick f) * Firm.wage_rate f)
  end.

Definition paid (h : Household.t) (w : Q) : Household.t :=
  Household.set_balance h (Household.balance h + w).

(** Rosters and employer fields say the same, and no roster repeats an
    id. *)
Definition employed (hs : dict Household.t) (fs : dict Firm.t) : Prop :=
  forall e f,
    get e fs = Some f ->
    NoDup (Firm.worker_ids f) /\
    forall i,
      In i (Firm.worker_ids f) <->
      exists h, get i hs = Some h /\ Household.employer_id h = Some e.

Lemma option_map_Some {A B : Type} (proj : A -> B) (x y : option A) (a : A) :
  option_map proj x = option_map proj y -> x = Some a ->
  exists b, y = Some b /\ proj b = proj a.
Proof.
  intros H ->. destruct y as [b|]; [|discriminate].
  exists b. split; [reflexivity|]. simpl in H. congruence.
Qed.

(** Employment is a matter of the static parts of the agents. *)
Lemma employed_transfer (hs hs1 : dict Household.t) (fs fs1 : dict Firm.t) :
  (forall k, option_map household_static (get k hs1) =
             option_map household_static (get k hs)) ->
  (forall k, option_map firm_static (get k fs1) =
             option_map firm_static (get k fs)) ->
  employed hs fs -> employed hs1 fs1.
Proof.
  intros Hh Hf Hemp e f1 Hf1.
  destruct (option_map_Some _ _ _ _ (Hf e) Hf1) as (f & Hg & Hs).
  destruct (Hemp e f Hg) as [Hnd Hiff].
  assert (Hw : Firm.worker_ids f1 = Firm.worker_ids f).
  { unfold firm_static in Hs. congruence. }
  rewrite Hw. split; [assumption|]. intros i. rewrite Hiff. split.
  - intros (h & Hgh & He).
    destruct (option_map_Some _ _ _ _ (eq_sym (Hh i)) Hgh) as (h1 & G1 & S1).
    exists h1. split; [assumption|]. unfold household_static in S1. congruence.
  - intros (h1 & Hgh & He).
    destruct (option_map_Some _ _ _ _ (Hh i) Hgh) as (h & G & S).
    exists h. split; [assumption|]. unfold household_static in S. congruence.
Qed.

Lemma payday_round (j : nat) (st st1 : TickState) :
  employed (ts_households st) (ts_firms st) ->
  payday j st = Some st1 ->
  employed (ts_households st1) (ts_firms st1) /\
  (exists f,
     get j (ts_firms st) = Some f /\
     get j (ts_firms st1) = Some (after_payday f)) /\
  (forall e, e <> j -> get e (ts_firms st1) = get e (ts_firms st)) /\
  (forall k h,
     get k (ts_households st) = Some h ->
     Household.employer_id h = Some j ->
     forall f, get j (ts_firms st) = Some f ->
       get k (ts_households st1) = Some (paid h (wage_per_worker f))) /\
  (forall k h,
     get k (ts_households st) = Some h ->
     Household.employer_id h <> Some j ->
     get k (ts_households st1) = Some h).
Proof.
  intros Hemp H. split.
  - pose (s0 := mkSimulation (mkConfig 0 0 0 0 0 0) (ts_households st) (ts_firms st)).
    assert (Hsa : same_agents s0 st) by (constructor; reflexivity).
    destruct (payday_same_agents s0 j st st1 Hsa H) as [_ _ Hh Hf].
    eapply employed_transfer; eassumption.
  - apply payday_inv in H. destruct H as (f & f' & Hgf & Hp & Ef & _ & _).
    destruct (Hemp j f Hgf) as [Hnd Hiff].
    apply pay_workers_inv in Hp.
    assert (Hf' : f' = after_payday f).
    { unfold after_payday.
      destruct Hp as [(E & -> & _)|(Hne & -> & _)].
      - now rewrite E.
      - destruct (Firm.worker_ids f); [congruence|reflexivity]. }
    split; [|split; [|split]].
    + exists f. split; [assumption|]. rewrite Ef, Hf'. apply get_set_eq.
    + intros e He. rewrite Ef. apply get_set_neq. congruence.
    + intros k h Hgk Hek f0 Hf0. assert (f0 = f) as -> by congruence.
      assert (Hin : In k (Firm.worker_ids f)) by (apply Hiff; eauto).
      destruct Hp as [(E & _ & _)|(_ & _ & D)].
      * rewrite E in Hin. destruct Hin.
      * apply (distribute_wages_worker _ _ _ Hnd Hin _ _ _ D Hgk).
    + intros k h Hgk Hek.
      destruct Hp as [(_ & _ & ->)|(_ & _ & D)]; [assumption|].
      assert (Hout : ~ In k (Firm.worker_ids f)).
      { intros Hin. apply Hiff in Hin. destruct Hin as (h0 & G0 & E0).
        congruence. }
      now rewrite (distribute_wages_other _ _ k Hout _ _ D).
Qed.

Lemma payday_rounds (ks : list nat) :
  forall st st',
    NoDup ks ->
    employed (ts_households st) (ts_firms st) ->
    payday_phase ks st = Some st' ->
    (forall e f,
       In e ks -> get e (ts_firms st) = Some f ->
       get e (ts_firms st') = Some (after_payday f)) /\
    (forall e, ~ In e ks -> get e (ts_firms st') = get e (ts_firms st)) /\
    (forall k h e f,
       get k (ts_households st) = Some h ->
       Household.employer_id h = Some e ->
       In e ks -> get e (ts_firms st) = Some f ->
       get k (ts_households st') = Some (paid h (wage_per_worker f))) /\
    (forall k h,
       get k (ts_households st) = Some h ->
       (forall e, Household.employer_id h = Some e -> ~ In e ks) ->
       get k (ts_households st') = Some h).
Proof.
  unfold payday_phase.
  induction ks as [|j ks IH]; intros st st' Hnd Hemp; simpl.
  - intros [= <-]. split; [|split; [|split]]; try tauto; auto.
  - destruct (payday j st) as [st1|] eqn:Hp; simpl bind; [|discriminate].
    intros Hl. inversion Hnd as [|? ? Hj Hnd']; subst.
    destruct (payday_round j st st1 Hemp Hp)
      as (Hemp1 & (fj & Hfj & Hfj1) & Hfo & Hpaid & Hnot).
    destruct (IH st1 st' Hnd' Hemp1 Hl) as (I1 & I2 & I3 & I4).
    split; [|split; [|split]].
    + intros e f [<-|He] Hf.
      * rewrite (I2 j Hj). congruence.
      * apply I1; [assumption|]. rewrite Hfo; [assumption|]. congruence.
    + intros e He. rewrite I2 by tauto. apply Hfo.
      intros ->. apply He. now left.
    + intros k h e f Hk He [<-|Hin] Hf.
      * apply I4; [now apply (Hpaid k h Hk He f)|].
        simpl. intros e' He'. congruence.
      * assert (e <> j) by congruence.
        apply (I3 k h e f); try assumption.
        -- apply Hnot; [assumption|congruence].
        -- now rewrite Hfo.
    + intros k h Hk He. apply I4.
      * apply Hnot; [assumption|]. intros E. apply (He j E). now left.
      * intros e E Hin. apply (He e E). now right.
Qed.

(** Every household has an employer among the firms, and the rosters
    agree with the employer fields. *)
Definition world_employed (s : Simulation) : Prop :=
  employed (households s) (firms s) /\
  forall k h,
    get k (households s) = Some h ->
    exists e, Household.employer_id h = Some e /\ In e (keys (firms s)).

Lemma world_employed_transfer (s : Simulation) (st : TickState) :
  same_agents s st -> world_employed s ->
  employed (ts_households st) (ts_firms st) /\
  forall k h,
    get k (ts_households st) = Some h ->
    exists e, Household.employer_id h = Some e /\ In e (keys (ts_firms st)).
Proof.
  intros [Hhk Hfk Hh Hf] [Hemp Hall]. split.
  - eapply employed_transfer; eassumption.
  - intros k h Hg.
    destruct (option_map_Some _ _ _ _ (Hh k) Hg) as (h0 & G0 & S0).
    destruct (Hall k h0 G0) as (e & He & Hin).
    exists e. split; [|now rewrite Hfk].
    unfold household_static in S0. congruence.
Qed.

Lemma reachable_employed (cfg : Config) (s : Simulation) :
  reachable cfg s -> world_employed s.
Proof.
  induction 1 as [g s g' H|s g txs s' g' _ IH H].
  - apply setup_world_inv in H. destruct H as (_ & _ & [Hhk Hfk Hhs Hfs Hemp]).
    split.
    + intros e f Hf. split; [|intros i; apply (Hemp i e f Hf)].
      apply (Forall_get _ _ _ _ Hfs Hf).
    + intros k h Hg.
      destruct (Forall_get _ _ _ _ Hhs Hg) as (_ & _ & _ & e & He & Hin).
      exists e. split; [assumption|]. now rewrite Hfk.
  - apply (world_employed_transfer s
             (mkTickState (households s') (firms s') txs g'));
      [|assumption].
    eapply run_one_tick_same_agents; eassumption.
Qed.

(** X17. In a tick from a reachable world every household is paid by its
    employer and by no other firm: its balance after the tick is its
    balance after shopping plus the wage of its employer,
    [(balance + revenue) * wage_rate / number of workers], computed on the
    employer's balance and revenue after this tick's sales, and nothing
    else of the household changes; and every firm is left with no pending
    revenue and with the balance one call of [pay_workers] leaves,
    [(balance + revenue) * (1 - wage_rate)] when it has workers and
    [balance + revenue] when it has none. *)
Theorem run_one_tick_pays_by_employer (cfg : Config) (s : Simulation)
    (g : Rng) txs s' g' :
  reachable cfg s -> run_one_tick s g = Some (txs, s', g') ->
  exists mid,
    shopping_phase (keys (firms s)) (keys (households s)) (start s g)
      = Some mid /\
    (forall e f,
       get e (ts_firms mid) = Some f ->
       exists f',
         get e (firms s') = Some f' /\
         Firm.revenue_this_tick f' = 0 /\
         (Firm.worker_ids f <> [] ->
          Firm.balance f' ==
            (Firm.balance f + Firm.revenue_this_tick f) *
            (1 - Firm.wage_rate f)) /\
         (Firm.worker_ids f = [] ->
          Firm.balance f' = Firm.balance f + Firm.revenue_this_tick f) /\
         firm_static f' = firm_static f) /\
    (forall k h,
       get k (ts_households mid) = Some h ->
       exists e f h',
         Household.employer_id h = Some e /\
         get e (ts_firms mid) = Some f /\
         In k (Firm.worker_ids f) /\
         get k (households s') = Some h' /\
         Household.balance h' =
           Household.balance h +
           (Firm.balance f + Firm.revenue_this_tick f) * Firm.wage_rate f /
           inject_Z (Z.of_nat (length (Firm.worker_ids f))) /\
         household_static h' = household_static h).
Proof.
  intros Hr H.
  pose proof (reachable_employed cfg s Hr) as Hw.
  pose proof (reachable_shape cfg s Hr) as [_ [_ Hfk _ _] _].
  apply run_one_tick_phases in H. destruct H as (mid & fin & H1 & H2 & E).
  unfold finish in E. injection E as _ -> _. simpl.
  exists mid. split; [assumption|].
  assert (Hsa : same_agents s mid).
  { apply (for_each_inv (shop (keys (firms s))) (same_agents s)
             (keys (households s))) with (st := start s g);
      [|constructor; reflexivity|exact H1].
    intros k st st' _. apply shop_same_agents. }
  destruct (world_employed_transfer s mid Hsa Hw) as [Hemp Hall].
  assert (Hnd : NoDup (keys (ts_firms mid))).
  { rewrite (sa_fkeys _ _ Hsa), Hfk. apply py_range_NoDup. }
  destruct (payday_rounds _ mid fin Hnd Hemp H2) as (P1 & _ & P3 & _).
  split.
  - intros e f Hf. exists (after_payday f). split.
    + apply P1; [|assumption]. eapply get_Some_in_keys; eassumption.
    + unfold after_payday.
      destruct (Firm.worker_ids f) as [|i ids] eqn:Ew.
      * split; [reflexivity|]. split; [congruence|].
        split; [reflexivity|].
        unfold firm_static. simpl. now rewrite Ew.
      * split; [reflexivity|]. split; [intros _; simpl; ring|].
        split; [discriminate|].
        unfold firm_static. simpl. now rewrite Ew.
  - intros k h Hk. destruct (Hall k h Hk) as (e & He & Hin).
    destruct (in_keys_get _ _ Hin) as [f Hf].
    exists e, f, (paid h (wage_per_worker f)).
    split; [assumption|]. split; [assumption|].
    split; [apply (Hemp e f Hf); eauto|].
    split; [now apply (P3 k h e f)|].
    split; reflexivity.
Qed.

Lemma run_one_tick_pays_by_employer_witness :
  let cfg := mkConfig 2 3 10 (1 # 2) 100 1 in
  exists s g txs s' g' h0' f0',
    reachable cfg s /\
    run_one_tick s g = Some (txs, s', g') /\
    get 0%nat (households s') = Some h0' /\
    Household.balance h0' == (100 # 3) - 10 + 5 / 2 /\
    get 0%nat (firms s') = Some f0' /\
    Firm.balance f0' == 5 /\ Firm.revenue_this_tick f0' = 0.
Proof.
  intros cfg.
  pose (g0 := mkRng (fun n => n) 0).
  destruct (_setup_world cfg g0) as [[s g1]|] eqn:H0; [|discriminate].
  destruct (run_one_tick s g1) as [[[txs s'] g']|] eqn:H1;
    [|vm_compute in H0; injection H0 as <- <-; discriminate].
  assert (Hr : reachable cfg s) by (apply (reachable_setup cfg g0 s g1 H0)).
  destruct (run_one_tick_pays_by_employer cfg s g1 txs s' g' Hr H1)
    as (mid & Hmid & Hf & Hh).
  vm_compute in H0. injection H0 as <- <-.
  vm_compute in Hmid. injection Hmid as <-.
  destruct (Hh 0%nat _ eq_refl) as (e & f & h0' & He & Hfe & _ & Hg & Hb & _).
  cbn [Household.employer_id] in He. injection He as <-.
  cbn in Hfe. injection Hfe as <-.
  destruct (Hf 0%nat _ eq_refl) as (f0' & Hg0 & Hv0 & Hb0 & _ & _).
  do 5 eexists. exists h0', f0'.
  split; [exact Hr|]. split; [exact H1|].
  split; [exact Hg|]. split; [rewrite Hb; reflexivity|].
  split; [exact Hg0|]. split; [|exact Hv0].
  rewrite Hb0 by discriminate. reflexivity.
Defined.

(** * The layout of [main.py] *)

(** [calculate_agent_positions] of [main.py] gives every agent a place in
    the window.  The constants are those of the module; the abscissa of a
    firm is a float and is a rational here. *)

Definition SCREEN_WIDTH : Z := 1280.
Definition SCREEN_HEIGHT : Z := 720.
Definition FIRM_Y_POSITION : Z := 100.
Definition HOUSEHOLD_GRID_START_Y : Z := 250.
Definition AGENT_RADIUS : Z := 5.

Definition x_padding : Z := 50.

(** [(SCREEN_WIDTH - 2 * x_padding) / (num_firms - 1) if num_firms > 1
    else 0]; the divisor is at least 1. *)
Definition firm_spacing (num_firms : nat) : Q :=
  if (1 <? num_firms)%nat
  then inject_Z (SCREEN_WIDTH - 2 * x_padding) /
       inject_Z (Z.of_nat num_firms - 1)
  else 0.

(** The position of the [i]-th firm of the enumeration. *)
Definition firm_position (spacing : Q) (i : nat) : Q * Z :=
  let x := inject_Z x_padding + inject_Z (Z.of_nat i) * spacing in
  (x, FIRM_Y_POSITION).

(** [for i, firm_id in enumerate(sim.firms.keys())], from index [i]. *)
Fixpoint place_firms (i : nat) (firm_ids : list nat) (spacing : Q)
    (firm_positions : dict (Q * Z)) : dict (Q * Z) :=
  match firm_ids with
  | [] => firm_positions
  | firm_id :: rest =>
      place_firms (S i) rest spacing
        (set firm_id (firm_position spacing i) firm_positions)
  end.

(** [int((SCREEN_WIDTH - 2 * x_padding) / (AGENT_RADIUS * 4))] *)
Definition agents_per_row : Z :=
  py_int (inject_Z (SCREEN_WIDTH - 2 * x_padding) /
          inject_Z (AGENT_RADIUS * 4)).

(** The position of the [i]-th household of the enumeration. *)
Definition household_position (i : nat) : Z * Z :=
  let row := (Z.of_nat i / agents_per_row)%Z in
  let col := (Z.of_nat i mod agents_per_row)%Z in
  let x := (x_padding + col * (AGENT_RADIUS * 4))%Z in
  let y := (HOUSEHOLD_GRID_START_Y + row * (AGENT_RADIUS * 4))%Z in
  (x, y).

(** [for i, hh_id in enumerate(sim.households.keys())], from index [i]. *)
Fixpoint place_households (i : nat) (hh_ids : list nat)
    (hh_positions : dict (Z * Z)) : dict (Z * Z) :=
  match hh_ids with
  | [] => hh_positions
  | hh_id :: rest =>
      place_households (S i) rest
        (set hh_id (household_position i) hh_positions)
  end.

Definition calculate_agent_positions (sim : Simulation)
    : dict (Q * Z) * dict (Z * Z) :=
  let num_firms := length (firms sim) in
  let firm_positions :=
    place_firms 0 (keys (firms sim)) (firm_spacing num_firms) empty in
  let hh_positions := place_households 0 (keys (households sim)) empty in
  (firm_positions, hh_positions).

Lemma agents_per_row_59 : agents_per_row = 59%Z.
Proof. reflexivity. Qed.

Section Enumerate.

Context {V : Type}.
Variable position : nat -> V.

(** The loops of the layout share their shape. *)
Fixpoint place (i : nat) (ids : list nat) (acc : dict V) : dict V :=
  match ids with
  | [] => acc
  | k :: rest => place (S i) rest (set k (position i) acc)
  end.

Lemma place_get (ids : list nat) :
  forall (i : nat) (acc : dict V),
    NoDup ids ->
    (forall j k, nth_error ids j = Some k ->
       get k (place i ids acc) = Some (position (i + j))) /\
    (forall k, ~ In k ids -> get k (place i ids acc) = get k acc).
Proof.
  induction ids as [|k0 ids IH]; intros i acc Hnd; simpl.
  - split; [intros [|j] k; discriminate|reflexivity].
  - inversion Hnd as [|? ? Hk Hnd']; subst.
    destruct (IH (S i) (set k0 (position i) acc) Hnd') as [Hin Hout].
    split.
    + intros [|j] k; simpl.
      * intros [= <-]. rewrite Hout by assumption.
        rewrite Nat.add_0_r. apply get_set_eq.
      * intros Hj. rewrite Nat.add_succ_r. now apply Hin.
    + intros k Hk'. rewrite Hout by tauto. apply get_set_neq. tauto.
Qed.

Lemma place_keys (ids : list nat) :
  forall (i : nat) (acc : dict V) (k : nat),
    In k (keys (place i ids acc)) <-> In k ids \/ In k (keys acc).
Proof.
  induction ids as [|k0 ids IH]; intros i acc k; simpl.
  - tauto.
  - rewrite IH. split.
    + intros [H|H]; [tauto|].
      destruct (in_keys_get _ _ H) as [v Hv].
      destruct (Nat.eq_dec k0 k) as [->|Hne]; [tauto|].
      rewrite get_set_neq in Hv by assumption.
      right. eapply get_Some_in_keys; eassumption.
    + intros [[<-|H]|H]; [right| tauto |right].
      * apply (get_Some_in_keys _ _ (position i)). apply get_set_eq.
      * destruct (in_keys_get _ _ H) as [v Hv].
        destruct (Nat.eq_dec k0 k) as [->|Hne].
        -- apply (get_Some_in_keys _ _ (position i)). apply get_set_eq.
        -- apply (get_Some_in_keys _ _ v). now rewrite get_set_neq.
Qed.

End Enumerate.

Lemma place_firms_place (spacing : Q) (ids : list nat) :
  forall i acc,
    place_firms i ids spacing acc = place (firm_position spacing) i ids acc.
Proof. induction ids as [|k ids IH]; intros i acc; simpl; [reflexivity|apply IH]. Qed.

Lemma place_households_place (ids : list nat) :
  forall i acc,
    place_households i ids acc = place household_position i ids acc.
Proof. induction ids as [|k ids IH]; intros i acc; simpl; [reflexivity|apply IH]. Qed.

(** X18. [calculate_agent_positions] places every agent and nothing
    else: the position dictionaries have exactly the keys of the world,
    and (the keys being distinct) the [i]-th firm of the enumeration
    stands at [(50 + i * spacing, 100)] and the [i]-th household at
    column [i mod 59] and row [i // 59] of a grid of pitch 20 that
    starts at [(50, 250)]. *)
Theorem calculate_agent_positions_spec (sim : Simulation) :
  wf (firms sim) -> wf (households sim) ->
  let '(firm_positions, hh_positions) := calculate_agent_positions sim in
  (forall k, In k (keys firm_positions) <-> In k (keys (firms sim))) /\
  (forall k, In k (keys hh_positions) <-> In k (keys (households sim))) /\
  (forall i k,
     nth_error (keys (firms sim)) i = Some k ->
     get k firm_positions =
       Some (inject_Z 50 + inject_Z (Z.of_nat i) *
               firm_spacing (length (firms sim)), 100%Z)) /\
  (forall i k,
     nth_error (keys (households sim)) i = Some k ->
     get k hh_positions =
       Some ((50 + (Z.of_nat i mod 59) * 20)%Z,
             (250 + (Z.of_nat i / 59) * 20)%Z)).
Proof.
  intros Hf Hh. unfold calculate_agent_positions.
  rewrite place_firms_place, place_households_place.
  split; [|split; [|split]].
  - intros k. rewrite place_keys. simpl. tauto.
  - intros k. rewrite place_keys. simpl. tauto.
  - intros i k Hi.
    destruct (place_get (firm_position (firm_spacing (length (firms sim))))
                (keys (firms sim)) 0 empty Hf) as [Hin _].
    apply (Hin i k Hi).
  - intros i k Hi.
    destruct (place_get household_position (keys (households sim)) 0 empty Hh)
      as [Hin _].
    apply (Hin i k Hi).
Qed.

Lemma calculate_agent_positions_spec_witness :
  let sim := mkSimulation (mkConfig 2 1 10 (1 # 2) 100 1)
               [(0%nat, Household.mk 0 100 1 (Some 0%nat))]
               [(0%nat, Firm.mk 0 0 10 (1 # 2) [0%nat] 0);
                (1%nat, Firm.mk 1 0 10 (1 # 2) [] 0)] in
  get 1%nat (fst (calculate_agent_positions sim)) =
    Some (inject_Z 50 + inject_Z 1 * firm_spacing 2, 100%Z).
Proof.
  intros sim.
  pose proof (calculate_agent_positions_spec sim) as H.
  destruct (calculate_agent_positions sim) as [fp hp] eqn:E.
  destruct H as (_ & _ & Hfp & _).
  - unfold wf. simpl. repeat constructor; simpl; intuition discriminate.
  - unfold wf. simpl. repeat constructor; simpl; tauto.
  - simpl fst. apply (Hfp 1%nat 1%nat). reflexivity.
Defined.

(** X19. The household grid: the [i]-th household stands at an abscissa
    between 50 and 1210, so inside the window with its radius, at an
    ordinate of at least 250; no two households stand at the same place;
    and the ordinate is inside the window of height 720 exactly for the
    first 1416 households, the later ones standing below it. *)
Theorem household_grid (i j : nat) :
  let '(x, y) := household_position i in
  (50 <= x <= 1210)%Z /\
  (x + AGENT_RADIUS <= SCREEN_WIDTH)%Z /\
  (250 <= y)%Z /\
  ((y < SCREEN_HEIGHT)%Z <-> (i < 1416)%nat) /\
  (household_position i = household_position j -> i = j).
Proof.
  unfold household_position. rewrite agents_per_row_59.
  unfold x_padding, AGENT_RADIUS, SCREEN_WIDTH, SCREEN_HEIGHT,
    HOUSEHOLD_GRID_START_Y.
  pose proof (Z.div_mod (Z.of_nat i) 59 ltac:(lia)) as Ei.
  pose proof (Z.mod_pos_bound (Z.of_nat i) 59 ltac:(lia)) as Bi.
  pose proof (Z.div_mod (Z.of_nat j) 59 ltac:(lia)) as Ej.
  pose proof (Z.mod_pos_bound (Z.of_nat j) 59 ltac:(lia)) as Bj.
  assert (Hq : (0 <= Z.of_nat i / 59)%Z) by (apply Z.div_pos; lia).
  set (qi := (Z.of_nat i / 59)%Z) in *. set (ri := (Z.of_nat i mod 59)%Z) in *.
  set (qj := (Z.of_nat j / 59)%Z) in *. set (rj := (Z.of_nat j mod 59)%Z) in *.
  repeat split; try lia.
  intros Heq.
  pose proof (f_equal fst Heq) as Hx. pose proof (f_equal snd Heq) as Hy.
  cbn [fst snd] in Hx, Hy. lia.
Qed.

(** X20. The firm line: every firm stands at ordinate 100 and, with its
    radius, inside the window, at an abscissa of at least 50; the first
    stands at abscissa 50, and so does a single firm; with [n >= 2] firms
    the abscissas grow along the enumeration, so that no two firms stand
    at the same place. *)
Theorem firm_line (n i j : nat) :
  (i < n)%nat ->
  let x := fun k => fst (firm_position (firm_spacing n) k) in
  inject_Z x_padding <= x i /\
  x i + inject_Z AGENT_RADIUS <= inject_Z SCREEN_WIDTH /\
  snd (firm_position (firm_spacing n) i) = FIRM_Y_POSITION /\
  x 0%nat == inject_Z x_padding /\
  ((1 < n)%nat -> (i < j)%nat -> x i < x j) /\
  (n = 1%nat -> x i == inject_Z x_padding).
Proof.
  intros Hi x. unfold x, firm_position, firm_spacing, x_padding, SCREEN_WIDTH,
    AGENT_RADIUS, FIRM_Y_POSITION.
  cbn [fst snd].
  assert (Hiq : 0 <= inject_Z (Z.of_nat i))
    by (change 0 with (inject_Z 0); rewrite <- Zle_Qle; lia).
  destruct (1 <? n)%nat eqn:E.
  - apply Nat.ltb_lt in E.
    set (d := inject_Z (Z.of_nat n - 1)).
    assert (Hd : 0 < d)
      by (unfold d; change 0 with (inject_Z 0); rewrite <- Zlt_Qlt; lia).
    assert (Hid : inject_Z (Z.of_nat i) <= d)
      by (unfold d; rewrite <- Zle_Qle; lia).
    set (a := inject_Z (Z.of_nat i)) in *.
    assert (Hs : 0 < inject_Z (1280 - 2 * 50) / d).
    { apply Qlt_shift_div_l; [assumption|]. rewrite Qmult_0_l. reflexivity. }
    assert (Hk : forall b, b * (inject_Z (1280 - 2 * 50) / d) ==
                           b * inject_Z 1180 / d).
    { intros b. change (1280 - 2 * 50)%Z with 1180%Z. field. lra. }
    split; [|split; [|split; [|split; [|split]]]].
    + assert (0 <= a * (inject_Z (1280 - 2 * 50) / d))
        by (apply Qmult_le_0_compat; lra).
      lra.
    + rewrite Hk.
      assert (a * inject_Z 1180 / d <= inject_Z 1180).
      { apply Qle_shift_div_r; [assumption|].
        change (inject_Z 1180) with 1180. lra. }
      change (inject_Z 1180) with 1180 in *. change (inject_Z 50) with 50.
      change (inject_Z 5) with 5. change (inject_Z 1280) with 1280. lra.
    + reflexivity.
    + simpl. ring.
    + intros _ Hij.
      assert (Hlt : a < inject_Z (Z.of_nat j))
        by (unfold a; rewrite <- Zlt_Qlt; lia).
      assert (a * (inject_Z (1280 - 2 * 50) / d) <
              inject_Z (Z.of_nat j) * (inject_Z (1280 - 2 * 50) / d))
        by (apply Qmult_lt_compat_r; assumption).
      lra.
    + intros ->. lia.
  - apply Nat.ltb_ge in E.
    assert (n = 1%nat) as -> by lia. assert (i = 0%nat) as -> by lia.
    simpl. repeat split; try discriminate; try reflexivity; try lia.
Qed.

Lemma firm_line_witness :
  fst (firm_position (firm_spacing 3) 1) <
  fst (firm_position (firm_spacing 3) 2) /\
  fst (firm_position (firm_spacing 3) 2) + inject_Z AGENT_RADIUS
    <= inject_Z SCREEN_WIDTH.
Proof.
  split.
  - apply (proj1 (proj2 (proj2 (proj2 (proj2
             (firm_line 3 1 2 ltac:(lia))))))); lia.
  - apply (proj1 (proj2 (firm_line 3 2 2 ltac:(lia)))).
Defined.

(** X21. The layout computed once serves every later tick: for worlds
    [s0] and [s] reachable from the same configuration, every record of a
    tick from [s] has a payer placed among the households and a payee
    placed among the firms by [calculate_agent_positions s0], so the main
    loop finds both ends of every transaction. *)
Theorem transactions_are_placed (cfg : Config) (s0 s : Simulation) (g : Rng)
    txs s' g' :
  reachable cfg s0 -> reachable cfg s ->
  run_one_tick s g = Some (txs, s', g') ->
  let '(firm_positions, hh_positions) := calculate_agent_positions s0 in
  forall t,
    In t txs ->
    (exists start_pos, get (from_id t) hh_positions = Some start_pos) /\
    (exists end_pos, get (to_id t) firm_positions = Some end_pos).
Proof.
  intros Hr0 Hr H. unfold calculate_agent_positions.
  rewrite place_firms_place, place_households_place.
  destruct (run_one_tick_reachable cfg s g txs s' g' Hr H)
    as (_ & _ & _ & _ & Etx & _).
  pose proof (reachable_shape cfg s0 Hr0) as [_ [Hhk0 Hfk0 _ _] _].
  pose proof (reachable_shape cfg s Hr) as [_ [Hhk Hfk Hhs Hfs] _].
  destruct (records_from_addresses (households s) (firms s) (keys (firms s)) g)
    with (ks := keys (households s)) (i := 0%nat) as (Hfrom & _ & Hto & _).
  - intros k h Hg. apply (Forall_get _ _ _ _ Hhs Hg).
  - intros fk f Hg. apply (Forall_get _ _ _ _ Hfs Hg).
  - rewrite Hhk. apply py_range_NoDup.
  - rewrite <- Etx in Hfrom, Hto. intros t Ht. split.
    + apply in_keys_get. apply place_keys. left.
      rewrite Hhk0, <- Hhk. apply Hfrom. now apply in_map.
    + apply in_keys_get. apply place_keys. left.
      rewrite Hfk0, <- Hfk. apply Hto. now apply in_map.
Qed.

Lemma transactions_are_placed_witness :
  let cfg := mkConfig 2 3 10 (1 # 2) 100 1 in
  exists s g txs s' g',
    reachable cfg s /\
    run_one_tick s g = Some (txs, s', g') /\
    forall t, In t txs ->
      exists start_pos,
        get (from_id t) (snd (calculate_agent_positions s)) = Some start_pos.
Proof.
  intros cfg.
  destruct (setup_world_total cfg (mkRng (fun n => n) 0)) as (s & g1 & Hs);
    [reflexivity|reflexivity|].
  assert (Hr : reachable cfg s) by (econstructor; eassumption).
  destruct (run_one_tick_total cfg ltac:(reflexivity) s g1
              (reachable_shape cfg s Hr)) as [[[txs s'] g'] H].
  exists s, g1, txs, s', g'. split; [assumption|]. split; [assumption|].
  pose proof (transactions_are_placed cfg s s g1 txs s' g' Hr Hr H) as P.
  destruct (calculate_agent_positions s) as [fp hp].
  intros t Ht. apply (P t Ht).
Defined.

(** ** No lookup, choice or division of a tick fails after a successful setup *)

Lemma place_order_and_pay_returns (hh : Household.t) (P : Q) :
  ~ P == 0 -> exists q hh', Household.place_order_and_pay hh P = Some (q, hh').
Proof.
  intros HP. unfold Household.place_order_and_pay.
  destruct (Qle_bool _ _); [eauto|].
  rewrite py_div_Some by assumption. simpl. eauto.
Qed.

Lemma shop_returns (cfg : Config) (hkeys fkeys : list nat) (k : nat)
    (st : TickState) :
  ~ p cfg == 0 ->
  tick_shape cfg hkeys fkeys st -> fkeys <> [] -> In k hkeys ->
  exists st', shop fkeys k st = Some st'.
Proof.
  intros Hp [Hhk Hfk _ Hfs] Hne Hk. rewrite <- Hhk in Hk.
  destruct (in_keys_get _ _ Hk) as [hh Hh].
  destruct (random_choice_total fkeys (ts_rng st) Hne) as [fk Hc].
  pose proof (random_choice_inv _ _ _ _ Hc) as (_ & Hin & _).
  rewrite <- Hfk in Hin. destruct (in_keys_get _ _ Hin) as [f Hf].
  pose proof (Forall_get _ _ _ _ Hfs Hf) as (_ & Hprice & _).
  simpl in Hprice.
  destruct (place_order_and_pay_returns hh (Firm.price f)) as (q & hh' & Hpl);
    [now rewrite Hprice|].
  unfold shop. rewrite Hh. simpl bind. rewrite Hc. simpl bind.
  rewrite Hf. simpl bind. rewrite Hpl. simpl bind.
  destruct (0 <? q)%Z; eauto.
Qed.

(** X22. Once the constructor has returned, no tick raises [KeyError],
    [IndexError] or [ZeroDivisionError], provided the price is not zero:
    from every reachable world, for every outcome of the random choices,
    every dictionary lookup of [run_one_tick] hits, the list given to
    [random.choice] is not empty and no divisor is zero, so that the tick
    of the exact embedding, which has no other exception, returns. *)
Theorem run_one_tick_returns (cfg : Config) (s : Simulation) (g : Rng) :
  ~ p cfg == 0 -> reachable cfg s ->
  exists txs s' g', run_one_tick s g = Some (txs, s', g').
Proof.
  intros Hp Hr. pose proof (reachable_shape cfg s Hr) as Hs.
  set (hkeys := py_range (N_H cfg)). set (fkeys := py_range (N_F cfg)).
  pose proof (firm_list_keys cfg s Hs) as Hfl.
  pose proof (tick_shape_start cfg s g Hs) as H0.
  destruct (for_each_total (shop fkeys) (tick_shape cfg hkeys fkeys)
              (keys (households s))) with (st := start s g)
    as [mid Hmid]; [| |exact H0|].
  - intros k st st' _. apply shop_shape.
  - intros k st Hk Hst.
    rewrite (sh_hkeys _ _ _ _ _ (ws_shape cfg s Hs)) in Hk.
    apply (shop_returns cfg hkeys fkeys k st Hp Hst); [|assumption].
    apply (ws_firms_exist cfg s Hs). intros E.
    rewrite E in Hk. destruct Hk.
  - assert (Hsm : tick_shape cfg hkeys fkeys mid).
    { eapply (for_each_inv (shop fkeys)); [|exact H0|exact Hmid].
      intros k st st' _. apply shop_shape. }
    destruct (for_each_total payday (tick_shape cfg hkeys fkeys)
                (keys (ts_firms mid))) with (st := mid)
      as [fin Hfin]; [| |exact Hsm|].
    + intros k st st' _. apply payday_shape.
    + intros k st Hk Hst. apply (payday_total cfg hkeys fkeys k st Hst).
      now rewrite (sh_fkeys _ _ _ _ _ Hsm) in Hk.
    + exists (ts_transactions fin),
             (mkSimulation (config s) (ts_households fin) (ts_firms fin)),
             (ts_rng fin).
      apply (run_one_tick_compose s g mid fin); [|exact Hfin].
      rewrite Hfl. exact Hmid.
Qed.

Lemma run_one_tick_returns_witness :
  let cfg := mkConfig 2 3 (-10) 2 (-100) (-1) in
  exists s txs s' g',
    reachable cfg s /\
    run_one_tick s (mkRng (fun n => n) 3) = Some (txs, s', g').
Proof.
  intros cfg.
  destruct (setup_world_total cfg (mkRng (fun n => n) 0)) as (s & g1 & Hs);
    [reflexivity|reflexivity|].
  assert (Hr : reachable cfg s) by (econstructor; eassumption).
  destruct (run_one_tick_returns cfg s (mkRng (fun n => n) 3))
    as (txs & s' & g' & H); [discriminate|assumption|].
  exists s, txs, s', g'. auto.
Defined.
